(** * ConsoleEngine: a shallow embedding of [engine.py]

    The module models the four classes of the engine ([Cell],
    [EngineObject], [Display], [Engine]) and proves the properties its
    specification states about them.

    Conventions of the embedding:
    - a Python [int] is a [Z]; a [str] is a [string]; [str | None] is an
      [option string]; a [float | None] is an [option float];
    - a method that mutates [self] takes the state and returns an [outcome]:
      either [Done] with the new state and the returned value, or [Raised]
      with the state reached when the exception left the method;
    - the grid is the only store of [Cell] objects, so a reference to a
      [Cell] held outside the grid (the list an [EngineObject] keeps) is the
      position [(row, col)] at which the object is stored; reading a field
      through a reference looks the cell up in the current grid.  The
      model has one display: an object is removed from the display it was
      drawn on;
    - the frame loop does not return, so [Engine.run] is an interaction
      tree over the calls it makes to [update], [render] and the clock. *)

From Stdlib Require Import ZArith String Ascii List Bool Lia.
From Stdlib Require Import Floats.PrimFloat.
From stdpp Require Import base option list.
From ITree Require Import ITree ITreeFacts.
From Paco Require Import paco.

Local Open Scope Z_scope.

(** ** Module constants *)

Definition EMPTY_CELL_SYMBOL : string := " "%string.
Definition CELL_DEFAULT_SYMBOL : string := "#"%string.

(** ** Exceptions and outcomes *)

(** The exceptions the engine's own code can raise: iterating [None]
    ([TypeError]) and indexing a list out of range ([IndexError]).
    [DanglingRef] has no counterpart in Python, where a reference always
    designates a live object; it is the outcome of reading a position that
    holds no cell, and the theorems show it does not arise. *)
Inductive exn : Type :=
| TypeError
| IndexError
| DanglingRef.

Inductive outcome (S A : Type) : Type :=
| Done (s : S) (a : A)
| Raised (s : S) (e : exn).

Arguments Done {S A} s a.
Arguments Raised {S A} s e.

(** State-and-exception monad: a computation over a state of type [S]. *)
Definition M (S A : Type) : Type := S -> outcome S A.

Definition ret {S A} (a : A) : M S A := fun s => Done s a.

Definition bind {S A B} (m : M S A) (k : A -> M S B) : M S B :=
  fun s =>
    match m s with
    | Done s' a => k a s'
    | Raised s' e => Raised s' e
    end.

Definition raise {S A} (e : exn) : M S A := fun s => Raised s e.
Definition get {S} : M S S := fun s => Done s s.
Definition modify {S} (f : S -> S) : M S unit := fun s => Done (f s) tt.

(** [unwrap e o]: the value of [o], raising [e] when there is none. *)
Definition unwrap {S A} (e : exn) (o : option A) : M S A :=
  match o with
  | Some a => ret a
  | None => raise e
  end.

Declare Scope py_scope.
Delimit Scope py_scope with py.
Notation "'do' x <~ m ; k" := (bind m (fun x => k))
  (at level 10, x name, m at level 100, k at level 200) : py_scope.
Notation "'do_' m ; k" := (bind m (fun _ => k))
  (at level 10, m at level 100, k at level 200) : py_scope.

(** ** Cell *)

(** The attributes [x] and [y] of the class are the fields [cell_x] and
    [cell_y]. *)
Record Cell : Type := mkCell {
  cell_x : Z;
  cell_y : Z;
  symbol : string;
  is_active : bool
}.

(** [Cell.__init__] *)
Definition Cell_init (x y : Z) (symbol : string) : Cell :=
  mkCell x y symbol false.

(** [Cell.activate] *)
Definition Cell_activate (symbol : option string) (self : Cell) : Cell :=
  let symbol :=
    match symbol with
    | None => CELL_DEFAULT_SYMBOL
    | Some s => s
    end in
  mkCell (cell_x self) (cell_y self) symbol true.

(** [Cell.deactivate] *)
Definition Cell_deactivate (self : Cell) : Cell :=
  mkCell (cell_x self) (cell_y self) EMPTY_CELL_SYMBOL false.

(** ** EngineObject *)

(** A reference to a [Cell] of the grid: the row and the column at which the
    object is stored. *)
Definition CellRef : Type := (nat * nat)%type.

Definition offset : Type := (Z * Z * option string)%type.

Record EngineObject : Type := mkEngineObject {
  object_form : list offset;
  object_coordinates : option (list CellRef)
}.

(** [EngineObject.__init__] *)
Definition EngineObject_init (object_form : list offset) : EngineObject :=
  mkEngineObject object_form None.

(** [EngineObject.init_object_coordinates] *)
Definition init_object_coordinates (object_coordinates : list CellRef)
    (self : EngineObject) : EngineObject :=
  mkEngineObject (object_form self) (Some object_coordinates).

(** [EngineObject.del_object_coordinates] *)
Definition del_object_coordinates (self : EngineObject) : EngineObject :=
  mkEngineObject (object_form self) None.

(** ** Display *)

Record Display : Type := mkDisplay {
  size_x : Z;
  size_y : Z;
  display : list (list Cell)
}.

(** [range(n)] *)
Definition range (n : Z) : list Z := seqZ 0 n.

(** [Display._display_init] *)
Definition _display_init (size_x size_y : Z) : list (list Cell) :=
  (fun row =>
     (fun col => Cell_init col row EMPTY_CELL_SYMBOL) <$> range size_x)
  <$> range size_y.

(** [Display.__init__] *)
Definition Display_init (size_x size_y : Z) : Display :=
  mkDisplay size_x size_y (_display_init size_x size_y).

(** [Display.__init__] with its default arguments. *)
Definition Display_default : Display := Display_init 120 30.

(** [Display._check_coordinates]: [0 <= x < size_x and 0 <= y < size_y]. *)
Definition _check_coordinates (self : Display) (x y : Z) : bool :=
  ((0 <=? x) && (x <? size_x self)) && ((0 <=? y) && (y <? size_y self)).

(** The position a Python index designates in a list of length [len]:
    a negative index counts from the end; [None] is an [IndexError]. *)
Definition py_index (len : nat) (i : Z) : option nat :=
  let j := if i <? 0 then Z.of_nat len + i else i in
  if (0 <=? j) && (j <? Z.of_nat len) then Some (Z.to_nat j) else None.

(** The reference [self.display[y][x]] evaluates to. *)
Definition locate (self : Display) (x y : Z) : option CellRef :=
  r ← py_index (length (display self)) y;
  row ← display self !! r;
  c ← py_index (length row) x;
  Some (r, c).

(** The cell a reference designates in the current grid. *)
Definition deref (self : Display) (ref : CellRef) : option Cell :=
  row ← display self !! ref.1;
  row !! ref.2.

(** In-place mutation of the cell a reference designates. *)
Definition update_cell (f : Cell -> Cell) (ref : CellRef) (self : Display)
    : Display :=
  mkDisplay (size_x self) (size_y self)
            (alter (alter f ref.2) ref.1 (display self)).

Local Open Scope py_scope.

(** [Display.activate_cell] *)
Definition activate_cell (x y : Z) (symbol : option string) : M Display unit :=
  let symbol :=
    match symbol with
    | None => CELL_DEFAULT_SYMBOL
    | Some s => s
    end in
  do self <~ get;
  if _check_coordinates self x y then
    do ref <~ unwrap IndexError (locate self x y);
    modify (update_cell (Cell_activate (Some symbol)) ref)
  else ret tt.

(** [Display.deactivate_cell] *)
Definition deactivate_cell (x y : Z) : M Display unit :=
  do self <~ get;
  if _check_coordinates self x y then
    do ref <~ unwrap IndexError (locate self x y);
    modify (update_cell Cell_deactivate ref)
  else ret tt.

(** [Display.check_cell_condition] *)
Definition check_cell_condition (x y : Z) : M Display bool :=
  do self <~ get;
  if _check_coordinates self x y then
    do ref <~ unwrap IndexError (locate self x y);
    do cell <~ unwrap DanglingRef (deref self ref);
    ret (is_active cell)
  else ret false.

(** The loop of [Display.draw_object]; [object_coordinates] is the list
    built so far. *)
Fixpoint draw_loop (start_x start_y : Z) (form : list offset)
    (object_coordinates : list CellRef) : M Display (list CellRef) :=
  match form with
  | [] => ret object_coordinates
  | coordinate :: form' =>
      let new_x := start_x + coordinate.1.1 in
      let new_y := start_y + coordinate.1.2 in
      do self <~ get;
      if _check_coordinates self new_x new_y then
        do_ activate_cell new_x new_y coordinate.2;
        do self <~ get;
        do ref <~ unwrap IndexError (locate self new_x new_y);
        draw_loop start_x start_y form' (object_coordinates ++ [ref])
      else draw_loop start_x start_y form' object_coordinates
  end.

(** [Display.draw_object]: the object is mutated by the call, so it is
    passed in and its new state is returned. *)
Definition draw_object (engine_object : EngineObject) (start_x start_y : Z)
    : M Display EngineObject :=
  do object_coordinates <~
     draw_loop start_x start_y (object_form engine_object) [];
  ret (init_object_coordinates object_coordinates engine_object).

(** The loop of [Display.del_object]: [coordinate.x] and [coordinate.y] are
    read through the reference. *)
Fixpoint del_loop (object_coordinates : list CellRef) : M Display unit :=
  match object_coordinates with
  | [] => ret tt
  | coordinate :: rest =>
      do self <~ get;
      do cell <~ unwrap DanglingRef (deref self coordinate);
      do_ deactivate_cell (cell_x cell) (cell_y cell);
      del_loop rest
  end.

(** [Display.del_object]: iterating [None] raises [TypeError]. *)
Definition del_object (engine_object : EngineObject)
    : M Display EngineObject :=
  match object_coordinates engine_object with
  | None => raise TypeError
  | Some object_coordinates =>
      do_ del_loop object_coordinates;
      ret (del_object_coordinates engine_object)
  end.

(** [Display.move_object] *)
Definition move_object (engine_object : EngineObject) (move_to_x move_to_y : Z)
    : M Display EngineObject :=
  do engine_object <~ del_object engine_object;
  draw_object engine_object move_to_x move_to_y.

(** *** Rendering *)

(** The console is the list of the texts written by the calls of [print],
    oldest first; [print(s, end=e)] writes [s] followed by [e]. *)
Definition console : Type := list string.

Definition print (s end_ : string) (out : console) : console :=
  out ++ [String.append s end_].

Definition newline : string := String (ascii_of_nat 10) EmptyString.

(** The control sequence ["\033[H"]. *)
Definition cursor_home : string := String (ascii_of_nat 27) "[H"%string.

(** ["".join(cell.symbol for cell in row)] *)
Definition join_symbols (row : list Cell) : string :=
  String.concat "" (symbol <$> row).

(** The buffer [render] accumulates over the rows. *)
Definition render_buffer (self : Display) : string :=
  fold_left (fun display row =>
               String.append display (String.append (join_symbols row) newline))
            (display self) ""%string.

(** [Display.render] *)
Definition render (self : Display) (out : console) : console :=
  let out := print cursor_home "" out in
  print (render_buffer self) newline out.

(** ** Engine *)

(** What the frame loop does to its environment: the calls of the abstract
    [update] hook and of [self.display.render()], and the calls of
    [time.time()] and [time.sleep(t)]. *)
Variant frameE : Type -> Type :=
| Update : frameE unit
| Render : frameE unit.

Variant clockE : Type -> Type :=
| Time : clockE float
| Sleep (seconds : float) : clockE unit.

Definition engineE : Type -> Type := frameE +' clockE.

Definition call_update : itree engineE unit := ITree.trigger (inl1 Update).
Definition call_render : itree engineE unit := ITree.trigger (inl1 Render).
Definition time_time : itree engineE float := ITree.trigger (inr1 Time).
Definition time_sleep (seconds : float) : itree engineE unit :=
  ITree.trigger (inr1 (Sleep seconds)).

(** The truth value Python gives [fps] in [if fps:]. *)
Definition truthy (fps : option float) : bool :=
  match fps with
  | None => false
  | Some f => negb (PrimFloat.eqb f 0%float)
  end.

(** [Engine._run_without_fps_limit] *)
Definition _run_without_fps_limit : itree engineE unit :=
  ITree.forever (ITree.bind call_update (fun _ => call_render)).

(** One iteration of the loop of [Engine._run_with_fps_limit]; the result is
    the value of [last_time] for the next iteration. *)
Definition paced_iteration (fps : option float) (last_time : float)
    : itree engineE float :=
  ITree.bind
    match fps with
    | Some fps =>
        ITree.bind time_time (fun current_time =>
        let elapsed_time := PrimFloat.sub current_time last_time in
        ITree.bind
          (if PrimFloat.ltb elapsed_time fps
           then time_sleep (PrimFloat.sub fps elapsed_time)
           else Ret tt)
          (fun _ => time_time))
    | None => Ret last_time
    end
    (fun last_time =>
       ITree.bind call_update (fun _ =>
       ITree.bind call_render (fun _ => Ret last_time))).

(** [Engine._run_with_fps_limit] *)
Definition _run_with_fps_limit (fps : option float) : itree engineE unit :=
  ITree.bind time_time (fun last_time =>
    ITree.iter (fun last_time =>
                  ITree.bind (paced_iteration fps last_time)
                             (fun last_time => Ret (inl last_time)))
               last_time).

(** [Engine.run] *)
Definition run (fps : option float) : itree engineE unit :=
  ITree.bind (if truthy fps then _run_with_fps_limit fps else Ret tt)
             (fun _ => _run_without_fps_limit).

(** * Vocabulary of the statements *)

(** [forallbi p i l]: [p] holds of every element of [l] at its position,
    the head of [l] being at position [i]. *)
Fixpoint forallbi {A} (p : nat -> A -> bool) (i : nat) (l : list A) : bool :=
  match l with
  | [] => true
  | a :: l' => p i a && forallbi p (S i) l'
  end.

(** The cell stored at row [r], column [c] carries these coordinates. *)
Definition cell_ok (r c : nat) (cell : Cell) : bool :=
  (cell_x cell =? Z.of_nat c) && (cell_y cell =? Z.of_nat r).

(** Row [r] has [width] cells, each carrying its coordinates. *)
Definition row_ok (width : Z) (r : nat) (row : list Cell) : bool :=
  (length row =? Z.to_nat width)%nat && forallbi (cell_ok r) 0 row.

(** The grid has [size_y] rows of [size_x] cells, and the cell stored at
    row [r], column [c] has [x = c] and [y = r]: what [_display_init]
    establishes and no method changes. *)
Definition grid_ok (self : Display) : bool :=
  (length (display self) =? Z.to_nat (size_y self))%nat
  && forallbi (row_ok (size_x self)) 0 (display self).

(** [grid_ok] as a proposition, in the form the proofs use. *)
Record wf (self : Display) : Prop := mk_wf {
  wf_height : length (display self) = Z.to_nat (size_y self);
  wf_width : forall r row,
    display self !! r = Some row -> length row = Z.to_nat (size_x self);
  wf_cell : forall r c cell,
    deref self (r, c) = Some cell ->
    cell_x cell = Z.of_nat c /\ cell_y cell = Z.of_nat r
}.

(** The reference of the cell at in-bounds coordinates [(x, y)]. *)
Definition ref_of (x y : Z) : CellRef := (Z.to_nat y, Z.to_nat x).

(** The cell at coordinates [(x, y)] of the grid. *)
Definition cell_at (self : Display) (x y : Z) : option Cell :=
  deref self (ref_of x y).

(** The symbol an activation with argument [symbol] gives a cell. *)
Definition glyph (symbol : option string) : string :=
  match symbol with
  | None => CELL_DEFAULT_SYMBOL
  | Some s => s
  end.

(** [f] leaves the attributes [x] and [y] of a cell alone. *)
Definition keeps_position (f : Cell -> Cell) : Prop :=
  forall cell, cell_x (f cell) = cell_x cell /\ cell_y (f cell) = cell_y cell.

(** The offset [c] of a form drawn at [(start_x, start_y)] lands inside the
    grid. *)
Definition lands (self : Display) (start_x start_y : Z) (c : offset) : bool :=
  _check_coordinates self (start_x + c.1.1) (start_y + c.1.2).

(** The offset [c] of a form drawn at [(start_x, start_y)] lands on the cell
    [(x, y)]. *)
Definition hits (start_x start_y x y : Z) (c : offset) : bool :=
  (start_x + c.1.1 =? x) && (start_y + c.1.2 =? y).

(** The references of the cells the in-bounds offsets land on, in the order
    of the form. *)
Definition footprint (self : Display) (start_x start_y : Z)
    (form : list offset) : list CellRef :=
  (fun c => ref_of (start_x + c.1.1) (start_y + c.1.2))
  <$> List.filter (lands self start_x start_y) form.

(** The cell at [(x, y)] once [form] is drawn: activated with the symbol of
    the last offset landing on it, or [old] when there is none. *)
Definition painted (start_x start_y : Z) (form : list offset) (x y : Z)
    (old : option Cell) : option Cell :=
  match last (List.filter (hits start_x start_y x y) form) with
  | Some c => Some (mkCell x y (glyph c.2) true)
  | None => old
  end.

(** Every reference of the list designates a cell of the grid. *)
Definition refs_ok (self : Display) (refs : list CellRef) : bool :=
  forallb (fun ref => match deref self ref with
                      | Some _ => true
                      | None => false
                      end) refs.

(** The active cells of the grid, row by row. *)
Definition active_cells (self : Display) : list Cell :=
  List.filter is_active (concat (display self)).

(** [is_active == (symbol != " ")] *)
Definition cell_inv (cell : Cell) : bool :=
  Bool.eqb (is_active cell) (negb (String.eqb (symbol cell) " ")).

(** Every cell of the grid satisfies [cell_inv]. *)
Definition grid_inv (self : Display) : bool :=
  forallb (forallb cell_inv) (display self).

(** The state an outcome leaves. *)
Definition state_of {S A} (o : outcome S A) : S :=
  match o with
  | Done s _ => s
  | Raised s _ => s
  end.

(** The text of a frame whose lines are [lines]: every line followed by a
    line break, and one more line break at the end (the one [print]
    appends). *)
Definition frame_text (lines : list string) : string :=
  String.append
    (String.concat "" ((fun l => String.append l newline) <$> lines))
    newline.

(** The string holds a line break. *)
Fixpoint has_line_break (s : string) : bool :=
  match s with
  | EmptyString => false
  | String a s' => Ascii.eqb a (ascii_of_nat 10) || has_line_break s'
  end.

(** [text] is a frame of [h] lines of [w] characters each: the lines
    themselves hold no line break, so that the text has these lines and no
    others (lemma [is_frame_unique]). *)
Definition is_frame (w h : nat) (text : string) : Prop :=
  exists lines,
    length lines = h
    /\ Forall (fun l => String.length l = w /\ has_line_break l = false) lines
    /\ text = frame_text lines.

(** [n] empty-cell symbols. *)
Definition spaces (n : nat) : string :=
  String.concat "" (replicate n EMPTY_CELL_SYMBOL).

(** One frame after the other, each a call of [update] followed by a call of
    [render], and nothing else: no call of the clock, no sleep. *)
Inductive frameF (r : itree engineE unit -> Prop)
    : itree' engineE unit -> Prop :=
| frame_step (k1 k2 : unit -> itree engineE unit) (t : itree engineE unit) :
    observe (k1 tt) = VisF (inl1 Render) k2 ->
    observe (k2 tt) = TauF t ->
    r t ->
    frameF r (VisF (inl1 Update) k1).

(** [frameF] on a tree, through its first node. *)
Definition frame_gen (r : itree engineE unit -> Prop)
    (t : itree engineE unit) : Prop :=
  frameF r (observe t).

(** [t] runs frames for ever and never consults the clock. *)
Definition unpaced (t : itree engineE unit) : Prop := paco1 frame_gen bot1 t.

(** An inactive cell with the empty-cell symbol. *)
Definition blank (cell : Cell) : bool :=
  negb (is_active cell) && String.eqb (symbol cell) EMPTY_CELL_SYMBOL.

(** Every reference of the list designates a blank cell of the grid. *)
Definition refs_blank (self : Display) (refs : list CellRef) : bool :=
  forallb (fun ref => match deref self ref with
                      | Some cell => blank cell
                      | None => false
                      end) refs.

(** No offset of the form carries the empty-cell symbol. *)
Definition no_space_symbol (form : list offset) : bool :=
  forallb (fun c => negb (String.eqb (glyph c.2) EMPTY_CELL_SYMBOL)) form.

(** Every cell of the grid satisfies [p]. *)
Definition grid_all (p : Cell -> bool) (self : Display) : bool :=
  forallb (forallb p) (display self).

(** The symbol of the cell is one character, and not a line break. *)
Definition single_char (cell : Cell) : bool :=
  (String.length (symbol cell) =? 1)%nat
  && negb (has_line_break (symbol cell)).

(** Every offset of the form carries a symbol of one character that is not
    a line break ([None] stands for ["#"]). *)
Definition one_char_form (form : list offset) : bool :=
  forallb (fun c => (String.length (glyph c.2) =? 1)%nat
                    && negb (has_line_break (glyph c.2))) form.

(** The body of the loop of [Engine._run_with_fps_limit], as [ITree.iter]
    takes it: one iteration, then again with the new [last_time]. *)
Definition paced_step (fps : option float) (last_time : float)
    : itree engineE (float + unit) :=
  ITree.bind (paced_iteration fps last_time)
             (fun last_time => Ret (inl last_time)).

(** One iteration of a loop paced at [f] seconds per frame, [last_time]
    being the clock value kept from the iteration before: the clock is
    read; when the time elapsed since [last_time] is below [f] the loop
    sleeps for [f] minus the elapsed time, otherwise it does not sleep; the
    clock is read again, and its value is kept; then [update] and [render]
    are called, and the loop goes on. *)
Definition paced_gen (f : float) (r : float -> itree engineE unit -> Prop)
    (last_time : float) (t : itree engineE unit) : Prop :=
  exists k1,
    t ≅ Vis (inr1 Time) k1
    /\ forall current_time,
        exists t2,
          (if PrimFloat.ltb (PrimFloat.sub current_time last_time) f
           then k1 current_time
                ≅ Vis (inr1 (Sleep (PrimFloat.sub f
                                     (PrimFloat.sub current_time last_time))))
                      (fun _ => t2)
           else k1 current_time ≅ t2)
          /\ exists k3,
              t2 ≅ Vis (inr1 Time) k3
              /\ forall last_time',
                  exists t',
                    k3 last_time'
                    ≅ Vis (inl1 Update)
                        (fun _ => Vis (inl1 Render) (fun _ => Tau t'))
                    /\ r last_time' t'.

(** [t] runs paced iterations for ever. *)
Definition paced (f : float) (last_time : float) (t : itree engineE unit)
    : Prop :=
  paco2 (paced_gen f) bot2 last_time t.

(** * Properties *)

(** ** Grids as the constructor builds them *)

Lemma forallbi_spec {A} (p : nat -> A -> bool) (l : list A) (n : nat) :
  forallbi p n l = true <->
  forall i a, l !! i = Some a -> p (n + i)%nat a = true.
Proof.
  revert n. induction l as [|b l IH]; intros n; simpl.
  - split; [intros _ i a Hi; destruct i; discriminate | reflexivity].
  - rewrite andb_true_iff, IH. split.
    + intros [Hb Hl] [|i] a Hi; simpl in Hi.
      * injection Hi as <-. now rewrite Nat.add_0_r.
      * rewrite <- Nat.add_succ_comm. now apply Hl.
    + intros H. split.
      * rewrite <- (Nat.add_0_r n). now apply H.
      * intros i a Hi. rewrite Nat.add_succ_comm. now apply H.
Qed.

Lemma grid_ok_wf (self : Display) : grid_ok self = true <-> wf self.
Proof.
  unfold grid_ok. rewrite andb_true_iff, Nat.eqb_eq, forallbi_spec. split.
  - intros [Hh Hrows]. split; [exact Hh | |].
    + intros r row Hr. specialize (Hrows r row Hr).
      unfold row_ok in Hrows. apply andb_true_iff in Hrows as [Hw _].
      now apply Nat.eqb_eq in Hw.
    + intros r c cell. unfold deref. simpl.
      destruct (display self !! r) as [row|] eqn:Hr; [simpl | discriminate].
      intros Hc. specialize (Hrows r row Hr).
      unfold row_ok in Hrows. apply andb_true_iff in Hrows as [_ Hcells].
      rewrite forallbi_spec in Hcells. specialize (Hcells c cell Hc).
      unfold cell_ok in Hcells. simpl in Hcells.
      apply andb_true_iff in Hcells as [Hx Hy]. lia.
  - intros [Hh Hw Hc]. split; [exact Hh |].
    intros r row Hr. simpl. unfold row_ok.
    rewrite andb_true_iff, Nat.eqb_eq, forallbi_spec.
    split; [now apply (Hw r) |].
    intros c cell Hcell. simpl. unfold cell_ok.
    destruct (Hc r c cell) as [Hx Hy].
    + unfold deref. simpl. now rewrite Hr.
    + rewrite andb_true_iff. lia.
Qed.

Lemma Display_init_wf (w h : Z) : wf (Display_init w h).
Proof.
  split; unfold deref, Display_init, _display_init, range;
    cbn [display size_x size_y fst snd].
  - now rewrite length_fmap, length_seqZ.
  - intros r row. rewrite list_lookup_fmap.
    destruct (seqZ 0 h !! r); [| discriminate].
    intros [= <-]. now rewrite length_fmap, length_seqZ.
  - intros r c cell. rewrite list_lookup_fmap.
    destruct (seqZ 0 h !! r) as [row|] eqn:Hr; [| discriminate].
    cbn [fmap option_fmap option_map mbind option_bind].
    rewrite list_lookup_fmap.
    destruct (seqZ 0 w !! c) as [col|] eqn:Hc; [| discriminate].
    apply lookup_seqZ in Hr, Hc. intros [= <-]. simpl. lia.
Qed.

Lemma Display_init_ok (w h : Z) : grid_ok (Display_init w h) = true.
Proof. apply grid_ok_wf, Display_init_wf. Qed.

Lemma check_coordinates_spec (self : Display) (x y : Z) :
  _check_coordinates self x y = true <->
  (0 <= x < size_x self /\ 0 <= y < size_y self).
Proof. unfold _check_coordinates. rewrite !andb_true_iff. lia. Qed.

Lemma py_index_in_range (len : nat) (i : Z) :
  0 <= i < Z.of_nat len -> py_index len i = Some (Z.to_nat i).
Proof.
  intros Hi. unfold py_index.
  destruct (i <? 0) eqn:Hneg; [lia |].
  destruct ((0 <=? i) && (i <? Z.of_nat len)) eqn:Hin; [reflexivity |].
  apply andb_false_iff in Hin. lia.
Qed.

Section Grid.
Variable self : Display.
Hypothesis Hwf : wf self.

Lemma wf_row (r : nat) :
  (r < Z.to_nat (size_y self))%nat ->
  exists row, display self !! r = Some row
              /\ length row = Z.to_nat (size_x self).
Proof using Hwf.
  intros Hr. rewrite <- (wf_height _ Hwf) in Hr.
  destruct (lookup_lt_is_Some_2 _ _ Hr) as [row Hrow].
  exists row. split; [exact Hrow | now apply (wf_width _ Hwf r)].
Qed.

Lemma locate_in_bounds (x y : Z) :
  _check_coordinates self x y = true ->
  locate self x y = Some (ref_of x y).
Proof using Hwf.
  intros Hxy. apply check_coordinates_spec in Hxy as [Hx Hy].
  unfold locate.
  rewrite py_index_in_range by (rewrite (wf_height _ Hwf); lia). simpl.
  destruct (wf_row (Z.to_nat y)) as (row & -> & Hlen); [lia |]. simpl.
  rewrite py_index_in_range by (rewrite Hlen; lia). reflexivity.
Qed.

Lemma cell_at_in_bounds (x y : Z) :
  _check_coordinates self x y = true ->
  exists cell, cell_at self x y = Some cell
               /\ cell_x cell = x /\ cell_y cell = y.
Proof using Hwf.
  intros Hxy. apply check_coordinates_spec in Hxy as [Hx Hy].
  destruct (wf_row (Z.to_nat y)) as (row & Hrow & Hlen); [lia |].
  destruct (lookup_lt_is_Some_2 row (Z.to_nat x)) as [cell Hcell]; [lia |].
  assert (Hd : deref self (ref_of x y) = Some cell).
  { unfold deref, ref_of. simpl. now rewrite Hrow. }
  exists cell. split; [exact Hd |].
  destruct (wf_cell _ Hwf _ _ _ Hd). lia.
Qed.

Lemma deref_in_bounds (ref : CellRef) (cell : Cell) :
  deref self ref = Some cell ->
  _check_coordinates self (cell_x cell) (cell_y cell) = true
  /\ ref_of (cell_x cell) (cell_y cell) = ref.
Proof using Hwf.
  destruct ref as [r c]. intros Hd.
  destruct (wf_cell _ Hwf _ _ _ Hd) as [-> ->].
  unfold deref in Hd. simpl in Hd.
  destruct (display self !! r) as [row|] eqn:Hrow; [simpl in Hd | discriminate].
  pose proof (lookup_lt_Some _ _ _ Hrow) as Hr.
  pose proof (lookup_lt_Some _ _ _ Hd) as Hc.
  rewrite (wf_height _ Hwf) in Hr. rewrite (wf_width _ Hwf _ _ Hrow) in Hc.
  split.
  - apply check_coordinates_spec. lia.
  - unfold ref_of. now rewrite !Nat2Z.id.
Qed.
End Grid.

(** ** Mutation of one cell *)

Lemma deref_update_eq (f : Cell -> Cell) (ref : CellRef) (self : Display) :
  deref (update_cell f ref self) ref = f <$> deref self ref.
Proof.
  destruct ref as [r c]. unfold deref, update_cell. cbn [display fst snd].
  rewrite list_lookup_alter_eq.
  destruct (display self !! r) as [row|]; [| reflexivity].
  cbn [fmap option_fmap option_map mbind option_bind].
  apply list_lookup_alter_eq.
Qed.

Lemma deref_update_ne (f : Cell -> Cell) (ref ref' : CellRef) (self : Display) :
  ref <> ref' -> deref (update_cell f ref self) ref' = deref self ref'.
Proof.
  destruct ref as [r c], ref' as [r' c']. intros Hne.
  unfold deref, update_cell. cbn [display fst snd].
  destruct (decide (r = r')) as [<- | Hr].
  - rewrite list_lookup_alter_eq.
    destruct (display self !! r) as [row|]; [| reflexivity].
    cbn [fmap option_fmap option_map mbind option_bind].
    apply list_lookup_alter_ne. congruence.
  - now rewrite list_lookup_alter_ne.
Qed.

Lemma Cell_activate_keeps_position (symbol : option string) :
  keeps_position (Cell_activate symbol).
Proof. intros cell. split; reflexivity. Qed.

Lemma Cell_deactivate_keeps_position : keeps_position Cell_deactivate.
Proof. intros cell. split; reflexivity. Qed.

Lemma update_cell_wf (f : Cell -> Cell) (ref : CellRef) (self : Display) :
  keeps_position f -> wf self -> wf (update_cell f ref self).
Proof.
  intros Hf Hwf. split.
  - unfold update_cell. cbn [display size_y].
    rewrite length_alter. apply (wf_height _ Hwf).
  - intros r row. unfold update_cell. cbn [display size_x].
    rewrite list_lookup_alter.
    destruct (decide (ref.1 = r)) as [<- | _]; [| apply (wf_width _ Hwf)].
    destruct (display self !! ref.1) as [row0|] eqn:Hrow; [| discriminate].
    intros [= <-]. rewrite length_alter. now apply (wf_width _ Hwf ref.1).
  - intros r c cell.
    destruct (decide (ref = (r, c))) as [-> | Hne].
    + rewrite deref_update_eq.
      destruct (deref self (r, c)) as [cell0|] eqn:Hd; [| discriminate].
      intros [= <-]. destruct (Hf cell0) as [-> ->].
      now apply (wf_cell _ Hwf).
    + rewrite deref_update_ne by exact Hne. apply (wf_cell _ Hwf).
Qed.

Lemma ref_of_inj (self : Display) (x y x' y' : Z) :
  _check_coordinates self x y = true ->
  _check_coordinates self x' y' = true ->
  ref_of x y = ref_of x' y' -> x = x' /\ y = y'.
Proof.
  intros H H'. apply check_coordinates_spec in H, H'.
  unfold ref_of. intros [= Hy Hx]. lia.
Qed.

(** What the single-cell methods evaluate to. *)
Lemma activate_cell_out (x y : Z) (symbol : option string) (self : Display) :
  _check_coordinates self x y = false ->
  activate_cell x y symbol self = Done self tt.
Proof. intros H. unfold activate_cell, bind, get. now rewrite H. Qed.

Lemma activate_cell_in (x y : Z) (symbol : option string) (self : Display) :
  wf self -> _check_coordinates self x y = true ->
  activate_cell x y symbol self
  = Done (update_cell (Cell_activate (Some (glyph symbol))) (ref_of x y) self)
         tt.
Proof.
  intros Hwf H. unfold activate_cell, bind, get. rewrite H.
  now rewrite (locate_in_bounds _ Hwf _ _ H).
Qed.

Lemma deactivate_cell_out (x y : Z) (self : Display) :
  _check_coordinates self x y = false ->
  deactivate_cell x y self = Done self tt.
Proof. intros H. unfold deactivate_cell, bind, get. now rewrite H. Qed.

Lemma deactivate_cell_in (x y : Z) (self : Display) :
  wf self -> _check_coordinates self x y = true ->
  deactivate_cell x y self
  = Done (update_cell Cell_deactivate (ref_of x y) self) tt.
Proof.
  intros Hwf H. unfold deactivate_cell, bind, get. rewrite H.
  now rewrite (locate_in_bounds _ Hwf _ _ H).
Qed.

Lemma check_cell_condition_out (x y : Z) (self : Display) :
  _check_coordinates self x y = false ->
  check_cell_condition x y self = Done self false.
Proof. intros H. unfold check_cell_condition, bind, get. now rewrite H. Qed.

Lemma check_cell_condition_in (x y : Z) (self : Display) (cell : Cell) :
  wf self -> _check_coordinates self x y = true ->
  cell_at self x y = Some cell ->
  check_cell_condition x y self = Done self (is_active cell).
Proof.
  intros Hwf H Hcell. unfold check_cell_condition, bind, get. rewrite H.
  rewrite (locate_in_bounds _ Hwf _ _ H). simpl.
  unfold cell_at in Hcell. now rewrite Hcell.
Qed.

Lemma check_coordinates_sizes (d d' : Display) (x y : Z) :
  size_x d' = size_x d -> size_y d' = size_y d ->
  _check_coordinates d' x y = _check_coordinates d x y.
Proof. intros Hx Hy. unfold _check_coordinates. now rewrite Hx, Hy. Qed.

(** ** Drawing *)

Lemma draw_loop_cons_in (sx sy : Z) (c : offset) (form : list offset)
    (acc : list CellRef) (self : Display) :
  wf self -> lands self sx sy c = true ->
  draw_loop sx sy (c :: form) acc self
  = draw_loop sx sy form (acc ++ [ref_of (sx + c.1.1) (sy + c.1.2)])
      (update_cell (Cell_activate (Some (glyph c.2)))
                   (ref_of (sx + c.1.1) (sy + c.1.2)) self).
Proof.
  intros Hwf Hin. unfold lands in Hin.
  cbn [draw_loop]. unfold bind at 1. unfold get at 1. rewrite Hin.
  unfold bind at 1. rewrite (activate_cell_in _ _ _ _ Hwf Hin).
  unfold bind at 1. unfold get at 1. unfold bind at 1.
  rewrite locate_in_bounds; [reflexivity | |].
  - apply update_cell_wf; [apply Cell_activate_keeps_position | exact Hwf].
  - exact Hin.
Qed.

Lemma draw_loop_cons_out (sx sy : Z) (c : offset) (form : list offset)
    (acc : list CellRef) (self : Display) :
  lands self sx sy c = false ->
  draw_loop sx sy (c :: form) acc self = draw_loop sx sy form acc self.
Proof.
  intros Hout. unfold lands in Hout.
  cbn [draw_loop]. unfold bind at 1. unfold get at 1. now rewrite Hout.
Qed.

Lemma painted_cons_hit (sx sy : Z) (c : offset) (form : list offset)
    (x y : Z) (old : option Cell) :
  hits sx sy x y c = true ->
  painted sx sy (c :: form) x y old
  = painted sx sy form x y (Some (mkCell x y (glyph c.2) true)).
Proof.
  intros Hhit. unfold painted. cbn [List.filter]. rewrite Hhit, last_cons.
  now destruct (last (List.filter (hits sx sy x y) form)).
Qed.

Lemma painted_cons_miss (sx sy : Z) (c : offset) (form : list offset)
    (x y : Z) (old : option Cell) :
  hits sx sy x y c = false ->
  painted sx sy (c :: form) x y old = painted sx sy form x y old.
Proof. intros Hmiss. unfold painted. cbn [List.filter]. now rewrite Hmiss. Qed.

Lemma draw_loop_spec (sx sy : Z) (form : list offset) :
  forall (acc : list CellRef) (self : Display),
    wf self ->
    exists self',
      draw_loop sx sy form acc self
      = Done self' (acc ++ footprint self sx sy form)
      /\ wf self'
      /\ size_x self' = size_x self /\ size_y self' = size_y self
      /\ forall x y, _check_coordinates self x y = true ->
           cell_at self' x y = painted sx sy form x y (cell_at self x y).
Proof.
  induction form as [|c form IH]; intros acc self Hwf.
  - exists self. unfold footprint. cbn. rewrite app_nil_r. auto.
  - destruct (lands self sx sy c) eqn:Hland.
    + rewrite (draw_loop_cons_in _ _ _ _ _ _ Hwf Hland).
      set (ref := ref_of (sx + c.1.1) (sy + c.1.2)).
      set (self1 := update_cell (Cell_activate (Some (glyph c.2))) ref self).
      assert (Hwf1 : wf self1)
        by (apply update_cell_wf;
            [apply Cell_activate_keeps_position | exact Hwf]).
      destruct (IH (acc ++ [ref]) self1 Hwf1)
        as (self' & Hrun & Hwf' & Hsx & Hsy & Hcells).
      exists self'. split; [| split; [exact Hwf' | split; [exact Hsx |
                                 split; [exact Hsy |]]]].
      * rewrite Hrun, <- app_assoc. unfold footprint.
        cbn [List.filter]. fold (lands self sx sy c). rewrite Hland.
        reflexivity.
      * intros x y Hxy. rewrite (Hcells x y Hxy).
        destruct (hits sx sy x y c) eqn:Hhit.
        -- rewrite (painted_cons_hit _ _ _ _ _ _ _ Hhit). f_equal.
           unfold hits in Hhit. apply andb_true_iff in Hhit as [Hx Hy].
           apply Z.eqb_eq in Hx, Hy. subst x y.
           unfold cell_at, self1. fold ref. rewrite deref_update_eq.
           destruct (cell_at_in_bounds _ Hwf _ _ Hxy)
             as (cell & Hcell & Hcx & Hcy).
           unfold cell_at in Hcell. fold ref in Hcell. rewrite Hcell.
           unfold Cell_activate. cbn. now rewrite Hcx, Hcy.
        -- rewrite (painted_cons_miss _ _ _ _ _ _ _ Hhit). f_equal.
           unfold cell_at, self1. apply deref_update_ne.
           intros Heq. apply (ref_of_inj self) in Heq as [Hx Hy];
             [| exact Hland | exact Hxy].
           unfold hits in Hhit. apply andb_false_iff in Hhit.
           rewrite !Z.eqb_neq in Hhit. tauto.
    + rewrite (draw_loop_cons_out _ _ _ _ _ _ Hland).
      destruct (IH acc self Hwf) as (self' & Hrun & Hwf' & Hsx & Hsy & Hcells).
      exists self'. split; [| split; [exact Hwf' | split; [exact Hsx |
                                 split; [exact Hsy |]]]].
      * rewrite Hrun. unfold footprint. cbn [List.filter]. now rewrite Hland.
      * intros x y Hxy. rewrite (Hcells x y Hxy).
        rewrite painted_cons_miss; [reflexivity |].
        unfold hits. apply andb_false_iff.
        rewrite !Z.eqb_neq.
        destruct (Z.eq_dec (sx + c.1.1) x) as [Hx|]; [| tauto].
        destruct (Z.eq_dec (sy + c.1.2) y) as [Hy|]; [| tauto].
        unfold lands in Hland. rewrite Hx, Hy in Hland. congruence.
Qed.

(** ** Removal *)

Lemma refs_ok_spec (self : Display) (refs : list CellRef) :
  refs_ok self refs = true <-> forall ref, ref ∈ refs -> is_Some (deref self ref).
Proof.
  unfold refs_ok. rewrite forallb_forall. split.
  - intros H ref Hin. apply list_elem_of_In in Hin. specialize (H ref Hin).
    destruct (deref self ref); [eauto | discriminate].
  - intros H ref Hin. apply list_elem_of_In in Hin.
    now destruct (H ref Hin) as [cell ->].
Qed.

Lemma footprint_ok (self : Display) (sx sy : Z) (form : list offset) :
  wf self -> refs_ok self (footprint self sx sy form) = true.
Proof.
  intros Hwf. apply refs_ok_spec. intros ref Hin.
  unfold footprint in Hin. apply list_elem_of_fmap in Hin as (c & -> & Hc).
  apply list_elem_of_In, filter_In in Hc as [_ Hland].
  destruct (cell_at_in_bounds _ Hwf _ _ Hland) as (cell & Hcell & _).
  unfold cell_at in Hcell. rewrite Hcell. eauto.
Qed.

Lemma del_loop_cons (ref : CellRef) (refs : list CellRef) (self : Display)
    (cell : Cell) :
  wf self -> deref self ref = Some cell ->
  del_loop (ref :: refs) self
  = del_loop refs (update_cell Cell_deactivate ref self).
Proof.
  intros Hwf Hd. destruct (deref_in_bounds _ Hwf _ _ Hd) as [Hin Href].
  cbn [del_loop]. unfold bind at 1. unfold get at 1.
  unfold bind at 1. rewrite Hd. cbn [unwrap ret].
  unfold bind at 1. rewrite (deactivate_cell_in _ _ _ Hwf Hin).
  now rewrite Href.
Qed.

Lemma Cell_deactivate_idem (cell : Cell) :
  Cell_deactivate (Cell_deactivate cell) = Cell_deactivate cell.
Proof. reflexivity. Qed.

Lemma del_loop_spec (refs : list CellRef) :
  forall self : Display,
    wf self -> refs_ok self refs = true ->
    exists self',
      del_loop refs self = Done self' tt
      /\ wf self'
      /\ size_x self' = size_x self /\ size_y self' = size_y self
      /\ (forall ref, ref ∈ refs ->
            deref self' ref = Cell_deactivate <$> deref self ref)
      /\ (forall ref, ref ∉ refs -> deref self' ref = deref self ref).
Proof.
  induction refs as [|ref refs IH]; intros self Hwf Hok.
  - exists self.
    split; [reflexivity |]. split; [exact Hwf |].
    split; [reflexivity |]. split; [reflexivity |].
    split; [| reflexivity].
    intros ref Hin. inversion Hin.
  - cbn [refs_ok forallb] in Hok. apply andb_true_iff in Hok as [Hhead Hrest].
    destruct (deref self ref) as [cell|] eqn:Hd; [| discriminate].
    rewrite (del_loop_cons _ _ _ _ Hwf Hd).
    set (self1 := update_cell Cell_deactivate ref self).
    assert (Hwf1 : wf self1)
      by (apply update_cell_wf;
          [apply Cell_deactivate_keeps_position | exact Hwf]).
    assert (Hok1 : refs_ok self1 refs = true).
    { apply refs_ok_spec. intros ref' Hin'.
      assert (Hsome : is_Some (deref self ref'))
        by (revert ref' Hin'; apply refs_ok_spec; exact Hrest).
      unfold self1. destruct (decide (ref = ref')) as [<- | Hne].
      - rewrite deref_update_eq, Hd. eauto.
      - now rewrite deref_update_ne. }
    destruct (IH self1 Hwf1 Hok1)
      as (self' & Hrun & Hwf' & Hsx & Hsy & Hin & Hout).
    exists self'.
    split; [exact Hrun |]. split; [exact Hwf' |].
    split; [exact Hsx |]. split; [exact Hsy |]. split.
    + intros ref' Hin'.
      destruct (decide (ref' ∈ refs)) as [Hmem | Hmem].
      * rewrite (Hin ref' Hmem). unfold self1.
        destruct (decide (ref = ref')) as [<- | Hne].
        -- rewrite deref_update_eq. now destruct (deref self ref).
        -- now rewrite deref_update_ne.
      * rewrite (Hout ref' Hmem).
        apply elem_of_cons in Hin' as [-> | Hmem']; [| contradiction].
        apply deref_update_eq.
    + intros ref' Hnotin. apply not_elem_of_cons in Hnotin as [Hne Hmem].
      rewrite (Hout ref' Hmem). apply deref_update_ne. congruence.
Qed.

(** * The claims *)

(** ** Single-cell operations *)

(** C5. The bounds predicate holds exactly when [0 <= x < size_x] and
    [0 <= y < size_y]; for coordinates outside these bounds, and whatever
    the state of the grid, [activate_cell] and [deactivate_cell] return
    normally and leave the display unchanged, and [check_cell_condition]
    returns [False] without raising. *)
Theorem out_of_bounds_noop (self : Display) (x y : Z)
    (symbol : option string) :
  (_check_coordinates self x y = true
   <-> 0 <= x < size_x self /\ 0 <= y < size_y self)
  /\ (~ (0 <= x < size_x self /\ 0 <= y < size_y self) ->
      activate_cell x y symbol self = Done self tt
      /\ deactivate_cell x y self = Done self tt
      /\ check_cell_condition x y self = Done self false).
Proof.
  split; [apply check_coordinates_spec |].
  intros Hout.
  assert (H : _check_coordinates self x y = false).
  { destruct (_check_coordinates self x y) eqn:E; [| reflexivity].
    apply check_coordinates_spec in E. contradiction. }
  split; [| split].
  - now apply activate_cell_out.
  - now apply deactivate_cell_out.
  - now apply check_cell_condition_out.
Qed.

Lemma out_of_bounds_noop_witness :
  let self := Display_init 3 2 in
  activate_cell (-1) 5 (Some "@"%string) self = Done self tt
  /\ deactivate_cell (-1) 5 self = Done self tt
  /\ check_cell_condition (-1) 5 self = Done self false.
Proof.
  intros self.
  apply (proj2 (out_of_bounds_noop self (-1) 5 (Some "@"%string))).
  simpl. lia.
Defined.

(** C7. For in-bounds coordinates [(x, y)] and any symbol argument,
    [activate_cell] returns normally, after it [check_cell_condition]
    returns [True] and the symbol of the cell is the argument, or ["#"] when
    the argument is [None]; [deactivate_cell] then returns the cell to
    inactive with the symbol [" "]. *)
Theorem activate_then_deactivate (self : Display) (x y : Z)
    (s : option string) :
  grid_ok self = true ->
  0 <= x < size_x self /\ 0 <= y < size_y self ->
  exists self1 self2 cell1 cell2,
    activate_cell x y s self = Done self1 tt
    /\ check_cell_condition x y self1 = Done self1 true
    /\ cell_at self1 x y = Some cell1
    /\ symbol cell1 = match s with
                      | Some s => s
                      | None => "#"%string
                      end
    /\ deactivate_cell x y self1 = Done self2 tt
    /\ check_cell_condition x y self2 = Done self2 false
    /\ cell_at self2 x y = Some cell2
    /\ symbol cell2 = " "%string
    /\ is_active cell2 = false.
Proof.
  intros Hok Hin. apply grid_ok_wf in Hok.
  apply check_coordinates_spec in Hin.
  destruct (cell_at_in_bounds _ Hok _ _ Hin) as (cell & Hcell & _).
  set (self1 := update_cell (Cell_activate (Some (glyph s))) (ref_of x y) self).
  set (self2 := update_cell Cell_deactivate (ref_of x y) self1).
  assert (Hwf1 : wf self1)
    by (apply update_cell_wf; [apply Cell_activate_keeps_position | exact Hok]).
  assert (Hwf2 : wf self2)
    by (apply update_cell_wf;
        [apply Cell_deactivate_keeps_position | exact Hwf1]).
  assert (Hcell1 : cell_at self1 x y
                   = Some (Cell_activate (Some (glyph s)) cell)).
  { unfold cell_at, self1. rewrite deref_update_eq.
    unfold cell_at in Hcell. now rewrite Hcell. }
  assert (Hcell2 : cell_at self2 x y
                   = Some (Cell_deactivate
                             (Cell_activate (Some (glyph s)) cell))).
  { unfold cell_at, self2. rewrite deref_update_eq.
    unfold cell_at in Hcell1. now rewrite Hcell1. }
  exists self1, self2. eexists. eexists.
  split; [now apply activate_cell_in |].
  split; [apply (check_cell_condition_in _ _ _ _ Hwf1 Hin Hcell1) |].
  split; [exact Hcell1 |].
  split; [now destruct s |].
  split; [now apply deactivate_cell_in |].
  split; [apply (check_cell_condition_in _ _ _ _ Hwf2 Hin Hcell2) |].
  split; [exact Hcell2 |].
  split; reflexivity.
Qed.

Lemma activate_then_deactivate_witness :
  exists self1 self2 cell1 cell2,
    activate_cell 1 0 None (Display_init 3 2) = Done self1 tt
    /\ check_cell_condition 1 0 self1 = Done self1 true
    /\ cell_at self1 1 0 = Some cell1
    /\ symbol cell1 = "#"%string
    /\ deactivate_cell 1 0 self1 = Done self2 tt
    /\ check_cell_condition 1 0 self2 = Done self2 false
    /\ cell_at self2 1 0 = Some cell2
    /\ symbol cell2 = " "%string
    /\ is_active cell2 = false.
Proof.
  apply (activate_then_deactivate (Display_init 3 2) 1 0 None).
  - reflexivity.
  - simpl. lia.
Defined.

(** ** Objects *)

Lemma draw_object_run (self : Display) (o : EngineObject) (sx sy : Z) :
  wf self ->
  exists self',
    draw_object o sx sy self
    = Done self' (mkEngineObject (object_form o)
                    (Some (footprint self sx sy (object_form o))))
    /\ wf self'
    /\ size_x self' = size_x self /\ size_y self' = size_y self
    /\ forall x y, _check_coordinates self x y = true ->
         cell_at self' x y
         = painted sx sy (object_form o) x y (cell_at self x y).
Proof.
  intros Hwf.
  destruct (draw_loop_spec sx sy (object_form o) [] self Hwf)
    as (self' & Hrun & Hwf' & Hsx & Hsy & Hcells).
  exists self'. split; [| auto].
  unfold draw_object, bind. now rewrite Hrun.
Qed.

Lemma del_object_run (self : Display) (o : EngineObject)
    (refs : list CellRef) :
  wf self -> object_coordinates o = Some refs -> refs_ok self refs = true ->
  exists self',
    del_object o self = Done self' (mkEngineObject (object_form o) None)
    /\ wf self'
    /\ size_x self' = size_x self /\ size_y self' = size_y self
    /\ (forall ref, ref ∈ refs ->
          deref self' ref = Cell_deactivate <$> deref self ref)
    /\ (forall ref, ref ∉ refs -> deref self' ref = deref self ref).
Proof.
  intros Hwf Hrefs Hok.
  destruct (del_loop_spec refs self Hwf Hok)
    as (self' & Hrun & Hrest).
  exists self'. split; [| exact Hrest].
  unfold del_object. rewrite Hrefs. unfold bind. now rewrite Hrun.
Qed.

(** C1. On a grid as the constructor builds it, [draw_object] returns
    normally; afterwards the object's list of cells holds the references of
    the cells its in-bounds offsets land on, in the order of the form, and
    nothing for the out-of-bounds offsets; every cell some offset lands on
    is active with the symbol of that offset (["#"] for [None]; the last
    offset wins when several land on one cell), and every other cell is as
    it was.  Drawing the form [(0,0,'A'), (1000,1000,'B')] at [(0, 0)] on a
    10x10 grid leaves exactly one active cell, [(0,0)] with symbol ['A'],
    and a list of one cell. *)
Theorem draw_object_spec :
  (forall (self : Display) (o : EngineObject) (start_x start_y : Z),
      grid_ok self = true ->
      exists self',
        draw_object o start_x start_y self
        = Done self'
            (mkEngineObject (object_form o)
               (Some ((fun c => ref_of (start_x + c.1.1) (start_y + c.1.2))
                      <$> List.filter
                            (fun c => _check_coordinates self
                                        (start_x + c.1.1) (start_y + c.1.2))
                            (object_form o))))
        /\ grid_ok self' = true
        /\ forall x y,
             0 <= x < size_x self /\ 0 <= y < size_y self ->
             cell_at self' x y
             = match last (List.filter
                             (fun c => (start_x + c.1.1 =? x)
                                       && (start_y + c.1.2 =? y))
                             (object_form o)) with
               | Some c =>
                   Some (mkCell x y
                           match c.2 with
                           | Some s => s
                           | None => "#"%string
                           end
                           true)
               | None => cell_at self x y
               end)
  /\ (exists self',
        draw_object
          (EngineObject_init [(0, 0, Some "A"%string);
                              (1000, 1000, Some "B"%string)])
          0 0 (Display_init 10 10)
        = Done self'
            (mkEngineObject [(0, 0, Some "A"%string);
                             (1000, 1000, Some "B"%string)]
                            (Some [(0%nat, 0%nat)]))
        /\ active_cells self' = [mkCell 0 0 "A"%string true]).
Proof.
  split.
  - intros self o sx sy Hok. apply grid_ok_wf in Hok.
    destruct (draw_object_run self o sx sy Hok)
      as (self' & Hrun & Hwf' & _ & _ & Hcells).
    exists self'. split; [exact Hrun |].
    split; [now apply grid_ok_wf |].
    intros x y Hin. apply check_coordinates_spec in Hin.
    apply (Hcells x y Hin).
  - eexists. split; vm_compute; reflexivity.
Qed.

Lemma draw_object_spec_witness :
  exists self',
    draw_object (EngineObject_init [(1, 0, None); (0, -1, Some "B"%string)])
                1 0 (Display_init 3 2)
    = Done self'
        (mkEngineObject [(1, 0, None); (0, -1, Some "B"%string)]
                        (Some [(0%nat, 2%nat)]))
    /\ grid_ok self' = true
    /\ cell_at self' 2 0 = Some (mkCell 2 0 "#"%string true).
Proof.
  destruct (proj1 draw_object_spec (Display_init 3 2)
              (EngineObject_init [(1, 0, None); (0, -1, Some "B"%string)])
              1 0 eq_refl) as (self' & Hrun & Hok & Hcells).
  exists self'. split; [exact Hrun |]. split; [exact Hok |].
  apply (Hcells 2 0). simpl. lia.
Defined.

Lemma footprint_sizes (d d' : Display) (sx sy : Z) (form : list offset) :
  size_x d' = size_x d -> size_y d' = size_y d ->
  footprint d' sx sy form = footprint d sx sy form.
Proof.
  intros Hx Hy. unfold footprint. f_equal.
  apply filter_ext. intros c. unfold lands.
  now apply check_coordinates_sizes.
Qed.

Lemma elem_of_footprint (self : Display) (sx sy : Z) (form : list offset)
    (ref : CellRef) :
  ref ∈ footprint self sx sy form <->
  exists c, c ∈ form /\ lands self sx sy c = true
            /\ ref = ref_of (sx + c.1.1) (sy + c.1.2).
Proof.
  unfold footprint. rewrite list_elem_of_fmap. split.
  - intros (c & -> & Hc). apply list_elem_of_In, filter_In in Hc as [Hc Hl].
    exists c. split; [now apply list_elem_of_In | auto].
  - intros (c & Hc & Hl & ->). exists c. split; [reflexivity |].
    apply list_elem_of_In, filter_In. split; [now apply list_elem_of_In | exact Hl].
Qed.

(** Drawing changes no cell outside the footprint. *)
Lemma draw_loop_frame (sx sy : Z) (form : list offset) :
  forall acc self self' refs,
    wf self ->
    draw_loop sx sy form acc self = Done self' refs ->
    forall ref, ref ∉ footprint self sx sy form ->
                deref self' ref = deref self ref.
Proof.
  induction form as [|c form IH]; intros acc self self' refs Hwf Hrun ref Hout.
  - cbn in Hrun. now injection Hrun as <- _.
  - destruct (lands self sx sy c) eqn:Hland.
    + rewrite (draw_loop_cons_in _ _ _ _ _ _ Hwf Hland) in Hrun.
      unfold footprint in Hout. cbn [List.filter] in Hout.
      rewrite Hland in Hout. cbn [fmap list_fmap] in Hout.
      apply not_elem_of_cons in Hout as [Hne Hout].
      rewrite (IH _ _ _ _ (update_cell_wf _ _ _
                 (Cell_activate_keeps_position _) Hwf) Hrun ref Hout).
      apply deref_update_ne. congruence.
    + rewrite (draw_loop_cons_out _ _ _ _ _ _ Hland) in Hrun.
      apply (IH _ _ _ _ Hwf Hrun).
      unfold footprint in Hout |- *. cbn [List.filter] in Hout.
      now rewrite Hland in Hout.
Qed.

(** A cell some offset lands on is painted active. *)
Lemma painted_active (sx sy : Z) (form : list offset) (c : offset)
    (old : option Cell) :
  c ∈ form ->
  exists s,
    painted sx sy form (sx + c.1.1) (sy + c.1.2) old
    = Some (mkCell (sx + c.1.1) (sy + c.1.2) s true).
Proof.
  intros Hc. unfold painted.
  destruct (last (List.filter (hits sx sy (sx + c.1.1) (sy + c.1.2)) form))
    as [c'|] eqn:Hlast; [eauto |].
  apply last_None in Hlast.
  assert (Hin : In c (List.filter (hits sx sy (sx + c.1.1) (sy + c.1.2)) form)).
  { apply filter_In. split; [now apply list_elem_of_In |].
    unfold hits. now rewrite !Z.eqb_refl. }
  rewrite Hlast in Hin. destruct Hin.
Qed.

Lemma draw_object_frame (self self' : Display) (o o' : EngineObject)
    (sx sy : Z) :
  wf self -> draw_object o sx sy self = Done self' o' ->
  forall ref, ref ∉ footprint self sx sy (object_form o) ->
              deref self' ref = deref self ref.
Proof.
  intros Hwf Hrun. unfold draw_object, bind in Hrun.
  destruct (draw_loop sx sy (object_form o) [] self) as [s refs | s e] eqn:Hloop;
    [| discriminate].
  injection Hrun as <- _. exact (draw_loop_frame _ _ _ _ _ _ _ Hwf Hloop).
Qed.

Lemma draw_object_active (self self' : Display) (o o' : EngineObject)
    (sx sy : Z) :
  wf self -> draw_object o sx sy self = Done self' o' ->
  forall ref, ref ∈ footprint self sx sy (object_form o) ->
              exists cell, deref self' ref = Some cell /\ is_active cell = true.
Proof.
  intros Hwf Hrun ref Hin.
  destruct (draw_object_run self o sx sy Hwf)
    as (self1 & Hrun1 & _ & _ & _ & Hcells).
  rewrite Hrun in Hrun1. injection Hrun1 as <- _.
  apply elem_of_footprint in Hin as (c & Hc & Hland & ->).
  specialize (Hcells _ _ Hland). unfold cell_at in Hcells. rewrite Hcells.
  destruct (painted_active sx sy (object_form o) c
              (deref self (ref_of (sx + c.1.1) (sy + c.1.2))) Hc) as [s ->].
  eauto.
Qed.

(** C2. On a grid as the constructor builds it, drawing an object at any
    origin and then removing it both return normally; afterwards every cell
    an in-bounds offset landed on is inactive with the symbol [" "], the
    cells outside the footprint are as they were before the draw, and the
    object's list of cells is [None].  (The object need not be unplaced
    before the draw.) *)
Theorem draw_then_remove (self : Display) (o : EngineObject)
    (start_x start_y : Z) :
  grid_ok self = true ->
  exists self1 o1 self2 o2,
    draw_object o start_x start_y self = Done self1 o1
    /\ del_object o1 self1 = Done self2 o2
    /\ object_coordinates o2 = None
    /\ object_form o2 = object_form o
    /\ (forall c,
          c ∈ object_form o ->
          0 <= start_x + c.1.1 < size_x self
          /\ 0 <= start_y + c.1.2 < size_y self ->
          cell_at self2 (start_x + c.1.1) (start_y + c.1.2)
          = Some (mkCell (start_x + c.1.1) (start_y + c.1.2) " "%string false))
    /\ (forall ref,
          ref ∉ footprint self start_x start_y (object_form o) ->
          deref self2 ref = deref self ref).
Proof.
  intros Hok. apply grid_ok_wf in Hok.
  destruct (draw_object_run self o start_x start_y Hok)
    as (self1 & Hdraw & Hwf1 & Hsx & Hsy & Hcells).
  set (refs := footprint self start_x start_y (object_form o)) in *.
  assert (Hrefs : refs_ok self1 refs = true).
  { unfold refs. rewrite <- (footprint_sizes self self1) by assumption.
    now apply footprint_ok. }
  destruct (del_object_run self1 (mkEngineObject (object_form o) (Some refs))
              refs Hwf1 eq_refl Hrefs)
    as (self2 & Hdel & Hwf2 & _ & _ & Hin & Hout).
  eexists self1, _, self2, _.
  split; [exact Hdraw |]. split; [exact Hdel |].
  split; [reflexivity |]. split; [reflexivity |]. split.
  - intros c Hc Hland. apply check_coordinates_spec in Hland.
    unfold cell_at. rewrite Hin.
    + rewrite <- (check_coordinates_sizes self self1) in Hland by assumption.
      destruct (cell_at_in_bounds _ Hwf1 _ _ Hland) as (cell & Hcell & Hx & Hy).
      unfold cell_at in Hcell. rewrite Hcell. cbn.
      unfold Cell_deactivate. now rewrite Hx, Hy.
    + apply elem_of_footprint. exists c. auto.
  - intros ref Href. rewrite (Hout ref Href).
    apply (draw_object_frame _ _ _ _ _ _ Hok Hdraw ref Href).
Qed.

Lemma draw_then_remove_witness :
  exists self1 o1 self2 o2,
    draw_object (EngineObject_init [(0, 0, Some "A"%string); (5, 5, None)])
                1 1 (Display_init 3 2) = Done self1 o1
    /\ del_object o1 self1 = Done self2 o2
    /\ object_coordinates o2 = None
    /\ cell_at self2 1 1 = Some (mkCell 1 1 " "%string false).
Proof.
  destruct (draw_then_remove (Display_init 3 2)
              (EngineObject_init [(0, 0, Some "A"%string); (5, 5, None)])
              1 1 eq_refl)
    as (self1 & o1 & self2 & o2 & Hdraw & Hdel & Hnone & _ & Hcells & _).
  exists self1, o1, self2, o2.
  split; [exact Hdraw |]. split; [exact Hdel |]. split; [exact Hnone |].
  apply (Hcells (0, 0, Some "A"%string)).
  - apply elem_of_cons. now left.
  - simpl. lia.
Defined.

(** C6. [del_object] needs the object's list of cells: called on an object
    whose list is [None] it raises ([TypeError], from iterating [None]) and
    leaves the display as it was; called on a placed object it returns
    normally, every recorded cell is then inactive with the symbol [" "],
    every other cell is as it was, and the object's list is [None]. *)
Theorem del_object_spec (self : Display) (o : EngineObject) :
  (object_coordinates o = None ->
   del_object o self = Raised self TypeError)
  /\ (forall refs,
        object_coordinates o = Some refs ->
        grid_ok self = true ->
        refs_ok self refs = true ->
        exists self',
          del_object o self
          = Done self' (mkEngineObject (object_form o) None)
          /\ (forall ref,
                ref ∈ refs ->
                exists cell,
                  deref self' ref = Some cell
                  /\ is_active cell = false
                  /\ symbol cell = " "%string)
          /\ (forall ref, ref ∉ refs -> deref self' ref = deref self ref)).
Proof.
  split.
  - intros Hnone. unfold del_object. now rewrite Hnone.
  - intros refs Hrefs Hok Hvalid. apply grid_ok_wf in Hok.
    destruct (del_object_run self o refs Hok Hrefs Hvalid)
      as (self' & Hdel & _ & _ & _ & Hin & Hout).
    exists self'. split; [exact Hdel |]. split; [| exact Hout].
    intros ref Href. rewrite (Hin ref Href).
    assert (Hsome : is_Some (deref self ref))
      by (revert ref Href; now apply refs_ok_spec).
    destruct Hsome as [cell ->]. exists (Cell_deactivate cell). auto.
Qed.

Lemma del_object_spec_witness :
  del_object (EngineObject_init [(0, 0, None)]) (Display_init 3 2)
  = Raised (Display_init 3 2) TypeError
  /\ exists self',
       del_object (mkEngineObject [(0, 0, None)] (Some [(1%nat, 2%nat)]))
                  (Display_init 3 2)
       = Done self' (mkEngineObject [(0, 0, None)] None)
       /\ exists cell,
            deref self' (1%nat, 2%nat) = Some cell
            /\ is_active cell = false
            /\ symbol cell = " "%string.
Proof.
  split.
  - apply (proj1 (del_object_spec (Display_init 3 2)
                    (EngineObject_init [(0, 0, None)]))).
    reflexivity.
  - destruct (proj2 (del_object_spec (Display_init 3 2)
                       (mkEngineObject [(0, 0, None)] (Some [(1%nat, 2%nat)])))
                [(1%nat, 2%nat)] eq_refl eq_refl eq_refl)
      as (self' & Hdel & Hin & _).
    exists self'. split; [exact Hdel |].
    apply Hin, elem_of_cons. now left.
Defined.

(** C8. [move_object] is [del_object] followed by [draw_object] at the new
    origin.  For a placed object on a grid as the constructor builds it, it
    returns normally; afterwards the cells of the old placement that the new
    footprint does not cover are inactive with the symbol [" "], the cells
    of the new footprint are active, every other cell is as it was, and the
    object's list holds the new footprint.  An object drawn at [(2, 2)] on a
    10x10 grid and moved to [(5, 5)] leaves [(2, 2)] inactive, and the
    active cells are exactly those of the form around [(5, 5)]. *)
Theorem move_object_spec :
  (forall (o : EngineObject) (x y : Z) (self : Display),
      move_object o x y self
      = match del_object o self with
        | Done self1 o1 => draw_object o1 x y self1
        | Raised self1 e => Raised self1 e
        end)
  /\ (forall (self : Display) (o : EngineObject) (refs : list CellRef)
             (x y : Z),
         grid_ok self = true ->
         object_coordinates o = Some refs ->
         refs_ok self refs = true ->
         exists self',
           move_object o x y self
           = Done self' (mkEngineObject (object_form o)
                           (Some (footprint self x y (object_form o))))
           /\ (forall ref,
                 ref ∈ refs ->
                 ref ∉ footprint self x y (object_form o) ->
                 exists cell,
                   deref self' ref = Some cell
                   /\ is_active cell = false
                   /\ symbol cell = " "%string)
           /\ (forall ref,
                 ref ∈ footprint self x y (object_form o) ->
                 exists cell,
                   deref self' ref = Some cell /\ is_active cell = true)
           /\ (forall ref,
                 ref ∉ refs ->
                 ref ∉ footprint self x y (object_form o) ->
                 deref self' ref = deref self ref))
  /\ (exists self1 o1 self2 o2,
         draw_object
           (EngineObject_init [(0, 0, None); (1, 0, Some "o"%string);
                               (0, 1, None)])
           2 2 (Display_init 10 10) = Done self1 o1
         /\ move_object o1 5 5 self1 = Done self2 o2
         /\ check_cell_condition 2 2 self2 = Done self2 false
         /\ active_cells self2
            = [mkCell 5 5 "#"%string true; mkCell 6 5 "o"%string true;
               mkCell 5 6 "#"%string true]).
Proof.
  split; [| split].
  - intros o x y self. reflexivity.
  - intros self o refs x y Hok Hrefs Hvalid. apply grid_ok_wf in Hok.
    destruct (del_object_run self o refs Hok Hrefs Hvalid)
      as (self1 & Hdel & Hwf1 & Hsx & Hsy & Hin & Hout).
    destruct (draw_object_run self1 (mkEngineObject (object_form o) None)
                x y Hwf1)
      as (self2 & Hdraw & _).
    cbn [object_form] in Hdraw.
    rewrite (footprint_sizes self self1) in Hdraw by assumption.
    exists self2. split; [| split; [| split]].
    + unfold move_object, bind. now rewrite Hdel.
    + intros ref Href Hnew.
      rewrite (draw_object_frame _ _ _ _ _ _ Hwf1 Hdraw);
        [| cbn [object_form];
           now rewrite (footprint_sizes self self1) by assumption].
      rewrite (Hin ref Href).
      assert (Hsome : is_Some (deref self ref))
        by (revert ref Href Hnew; intros ref Href _; revert ref Href;
            now apply refs_ok_spec).
      destruct Hsome as [cell ->]. exists (Cell_deactivate cell). auto.
    + intros ref Hnew.
      apply (draw_object_active _ _ _ _ _ _ Hwf1 Hdraw).
      cbn [object_form].
      now rewrite (footprint_sizes self self1) by assumption.
    + intros ref Hold Hnew.
      rewrite (draw_object_frame _ _ _ _ _ _ Hwf1 Hdraw);
        [| cbn [object_form];
           now rewrite (footprint_sizes self self1) by assumption].
      apply (Hout ref Hold).
  - do 4 eexists. repeat split; vm_compute; reflexivity.
Qed.

Lemma move_object_spec_witness :
  exists self',
    move_object (mkEngineObject [(0, 0, None)] (Some [(0%nat, 0%nat)])) 2 1
                (Display_init 3 2)
    = Done self' (mkEngineObject [(0, 0, None)] (Some [(1%nat, 2%nat)]))
    /\ exists cell,
         deref self' (0%nat, 0%nat) = Some cell
         /\ is_active cell = false
         /\ symbol cell = " "%string.
Proof.
  destruct (proj1 (proj2 move_object_spec) (Display_init 3 2)
              (mkEngineObject [(0, 0, None)] (Some [(0%nat, 0%nat)]))
              [(0%nat, 0%nat)] 2 1 eq_refl eq_refl eq_refl)
    as (self' & Hmove & Hold & _).
  exists self'. split; [exact Hmove |].
  apply Hold.
  - apply elem_of_cons. now left.
  - vm_compute. intros H. apply elem_of_cons in H as [H | H].
    + discriminate.
    + inversion H.
Defined.

(** C10. Drawing an object that is already placed does not deactivate the
    cells of its old placement: every active cell of the old placement that
    the new footprint does not cover is unchanged after the draw, is absent
    from the object's new list of cells, and is still unchanged, hence
    active, after a following [del_object]. *)
Theorem redraw_leaves_residue (self : Display) (o : EngineObject)
    (refs : list CellRef) (x y : Z) :
  grid_ok self = true ->
  object_coordinates o = Some refs ->
  refs_ok self refs = true ->
  exists self1 new_refs self2 o2,
    draw_object o x y self
    = Done self1 (mkEngineObject (object_form o) (Some new_refs))
    /\ del_object (mkEngineObject (object_form o) (Some new_refs)) self1
       = Done self2 o2
    /\ forall ref cell,
         ref ∈ refs ->
         ref ∉ footprint self x y (object_form o) ->
         deref self ref = Some cell ->
         is_active cell = true ->
         deref self1 ref = Some cell
         /\ (ref ∉ new_refs)
         /\ deref self2 ref = Some cell.
Proof.
  intros Hok Hrefs Hvalid. apply grid_ok_wf in Hok.
  destruct (draw_object_run self o x y Hok)
    as (self1 & Hdraw & Hwf1 & Hsx & Hsy & _).
  set (new_refs := footprint self x y (object_form o)) in *.
  assert (Hnew : refs_ok self1 new_refs = true).
  { unfold new_refs. rewrite <- (footprint_sizes self self1) by assumption.
    now apply footprint_ok. }
  destruct (del_object_run self1
              (mkEngineObject (object_form o) (Some new_refs))
              new_refs Hwf1 eq_refl Hnew)
    as (self2 & Hdel & _ & _ & _ & _ & Hout).
  exists self1, new_refs, self2. eexists.
  split; [exact Hdraw |]. split; [exact Hdel |].
  intros ref cell Hold Hnot Hcell Hactive.
  assert (H1 : deref self1 ref = Some cell).
  { rewrite (draw_object_frame _ _ _ _ _ _ Hok Hdraw ref Hnot). exact Hcell. }
  split; [exact H1 |]. split; [exact Hnot |].
  now rewrite (Hout ref Hnot).
Qed.

Lemma redraw_leaves_residue_witness :
  exists self1 new_refs self2 o2,
    draw_object (mkEngineObject [(0, 0, None)] (Some [(0%nat, 0%nat)])) 2 1
      (update_cell (Cell_activate None) (0%nat, 0%nat) (Display_init 3 2))
    = Done self1 (mkEngineObject [(0, 0, None)] (Some new_refs))
    /\ del_object (mkEngineObject [(0, 0, None)] (Some new_refs)) self1
       = Done self2 o2
    /\ deref self1 (0%nat, 0%nat) = Some (mkCell 0 0 "#"%string true)
    /\ ((0%nat, 0%nat) ∉ new_refs)
    /\ deref self2 (0%nat, 0%nat) = Some (mkCell 0 0 "#"%string true).
Proof.
  destruct (redraw_leaves_residue
              (update_cell (Cell_activate None) (0%nat, 0%nat)
                           (Display_init 3 2))
              (mkEngineObject [(0, 0, None)] (Some [(0%nat, 0%nat)]))
              [(0%nat, 0%nat)] 2 1 eq_refl eq_refl eq_refl)
    as (self1 & new_refs & self2 & o2 & Hdraw & Hdel & Hres).
  exists self1, new_refs, self2, o2.
  split; [exact Hdraw |]. split; [exact Hdel |].
  apply (Hres (0%nat, 0%nat) (mkCell 0 0 "#"%string true)).
  - apply elem_of_cons. now left.
  - vm_compute. intros H. apply elem_of_cons in H as [H | H].
    + discriminate.
    + inversion H.
  - reflexivity.
  - reflexivity.
Defined.

(** ** The active flag and the symbol *)

Lemma forallb_alter {A} (p : A -> bool) (g : A -> A) (l : list A) (i : nat) :
  (forall a, p a = true -> p (g a) = true) ->
  forallb p l = true -> forallb p (alter g i l) = true.
Proof.
  intros Hg. revert i. induction l as [|a l IH]; intros i Hl; [exact Hl |].
  cbn [forallb] in Hl. apply andb_true_iff in Hl as [Ha Hl].
  destruct i as [|i]; cbn; apply andb_true_iff; auto.
Qed.

Lemma grid_inv_update (f : Cell -> Cell) (ref : CellRef) (self : Display) :
  (forall cell, cell_inv (f cell) = true) ->
  grid_inv self = true -> grid_inv (update_cell f ref self) = true.
Proof.
  intros Hf. unfold grid_inv, update_cell. cbn [display].
  apply forallb_alter. intros row. apply forallb_alter. auto.
Qed.

Lemma grid_inv_init (w h : Z) : grid_inv (Display_init w h) = true.
Proof.
  unfold grid_inv, Display_init, _display_init. cbn [display].
  apply forallb_forall. intros row Hrow.
  apply list_elem_of_In, list_elem_of_fmap in Hrow as (r & -> & _).
  apply forallb_forall. intros cell Hcell.
  apply list_elem_of_In, list_elem_of_fmap in Hcell as (c & -> & _).
  reflexivity.
Qed.

(** C3 as stated fails: activating the only cell of a 1x1 grid with the
    symbol [" "] leaves it active with the empty-cell symbol. *)
Lemma activation_with_space_breaks_cell_inv :
  grid_inv (Display_init 1 1) = true
  /\ exists self',
       activate_cell 0 0 (Some " "%string) (Display_init 1 1) = Done self' tt
       /\ cell_at self' 0 0 = Some (mkCell 0 0 " "%string true)
       /\ grid_inv self' = false.
Proof. split; [reflexivity |]. eexists. repeat split. Qed.

(** C3 (amended). Every cell of a freshly constructed grid satisfies
    [is_active == (symbol != " ")]; [deactivate_cell] preserves this for
    every cell of the grid, and so does [activate_cell] for every symbol
    argument other than [" "] itself ([None], which stands for ["#"],
    included). *)
Theorem cell_inv_preserved :
  (forall w h : Z, grid_inv (Display_init w h) = true)
  /\ (forall (self : Display) (x y : Z),
         grid_inv self = true ->
         grid_inv (state_of (deactivate_cell x y self)) = true)
  /\ (forall (self : Display) (x y : Z) (s : option string),
         grid_inv self = true ->
         s <> Some " "%string ->
         grid_inv (state_of (activate_cell x y s self)) = true).
Proof.
  split; [exact grid_inv_init | split].
  - intros self x y Hinv. unfold deactivate_cell, bind, get.
    destruct (_check_coordinates self x y); [| exact Hinv].
    destruct (locate self x y) as [ref|]; [| exact Hinv].
    cbn. now apply grid_inv_update.
  - intros self x y s Hinv Hs. unfold activate_cell, bind, get.
    destruct (_check_coordinates self x y); [| exact Hinv].
    destruct (locate self x y) as [ref|]; [| exact Hinv].
    cbn. apply grid_inv_update; [| exact Hinv].
    intros cell. unfold cell_inv, Cell_activate. cbn.
    destruct s as [s|]; [| reflexivity].
    destruct (String.eqb s " ") eqn:E; [| reflexivity].
    apply String.eqb_eq in E. congruence.
Qed.

Lemma cell_inv_preserved_witness :
  grid_inv (state_of (deactivate_cell 1 0 (Display_init 3 2))) = true
  /\ grid_inv (state_of (activate_cell 1 0 (Some "A"%string)
                                       (Display_init 3 2))) = true.
Proof.
  split.
  - apply (proj1 (proj2 cell_inv_preserved) (Display_init 3 2) 1 0).
    reflexivity.
  - apply (proj2 (proj2 cell_inv_preserved) (Display_init 3 2) 1 0
             (Some "A"%string)).
    + reflexivity.
    + discriminate.
Defined.

(** ** Rendering *)

Lemma append_nil_r (s : string) : String.append s "" = s.
Proof. induction s as [|a s IH]; cbn; [reflexivity | now rewrite IH]. Qed.

Lemma append_assoc (s1 s2 s3 : string) :
  String.append (String.append s1 s2) s3
  = String.append s1 (String.append s2 s3).
Proof. induction s1 as [|a s1 IH]; cbn; [reflexivity | now rewrite IH]. Qed.

Lemma length_append (s1 s2 : string) :
  String.length (String.append s1 s2)
  = (String.length s1 + String.length s2)%nat.
Proof. induction s1 as [|a s1 IH]; cbn; [reflexivity | now rewrite IH]. Qed.

Lemma concat_cons (s : string) (l : list string) :
  String.concat "" (s :: l) = String.append s (String.concat "" l).
Proof. destruct l; cbn; [now rewrite append_nil_r | reflexivity]. Qed.

Lemma render_loop_eq (rows : list (list Cell)) (acc : string) :
  fold_left (fun display row =>
               String.append display (String.append (join_symbols row) newline))
            rows acc
  = String.append acc
      (String.concat ""
         ((fun l => String.append l newline) <$> (join_symbols <$> rows))).
Proof.
  revert acc. induction rows as [|row rows IH]; intros acc.
  - cbn. now rewrite append_nil_r.
  - cbn [fold_left]. rewrite IH, !fmap_cons, concat_cons.
    now rewrite append_assoc.
Qed.

Lemma render_eq (self : Display) (out : console) :
  render self out
  = out ++ [cursor_home; frame_text (join_symbols <$> display self)].
Proof.
  unfold render, print, render_buffer. rewrite render_loop_eq.
  rewrite <- app_assoc. cbn [app]. rewrite append_nil_r. reflexivity.
Qed.

Lemma join_symbols_length (row : list Cell) :
  (forall cell, cell ∈ row -> String.length (symbol cell) = 1%nat) ->
  String.length (join_symbols row) = length row.
Proof.
  unfold join_symbols. induction row as [|cell row IH]; intros H.
  - reflexivity.
  - rewrite fmap_cons, concat_cons, length_append.
    rewrite (H cell) by (apply elem_of_cons; now left).
    rewrite IH; [reflexivity |].
    intros c Hc. apply H, elem_of_cons. now right.
Qed.

Lemma frame_text_length (w : nat) (lines : list string) :
  Forall (fun l => String.length l = w) lines ->
  String.length (frame_text lines) = (length lines * (w + 1) + 1)%nat.
Proof.
  unfold frame_text. intros H. rewrite length_append. f_equal.
  induction H as [|l lines Hl _ IH]; [reflexivity |].
  rewrite fmap_cons, concat_cons, !length_append, IH, Hl. cbn. lia.
Qed.

Lemma join_symbols_blank (row : Z) (cols : list Z) :
  join_symbols ((fun col => Cell_init col row EMPTY_CELL_SYMBOL) <$> cols)
  = spaces (length cols).
Proof.
  unfold join_symbols, spaces. induction cols as [|col cols IH].
  - reflexivity.
  - rewrite !fmap_cons. cbn [length]. rewrite replicate_S, !concat_cons.
    now rewrite IH.
Qed.

Lemma blank_rows (w : Z) (rows : list Z) :
  join_symbols
  <$> ((fun row => (fun col => Cell_init col row EMPTY_CELL_SYMBOL)
                   <$> range w) <$> rows)
  = replicate (length rows) (spaces (Z.to_nat w)).
Proof.
  induction rows as [|row rows IH]; [reflexivity |].
  rewrite !fmap_cons, IH, join_symbols_blank. unfold range.
  now rewrite length_seqZ.
Qed.

(** *** Lines without line breaks *)

Lemma has_line_break_append (s1 s2 : string) :
  has_line_break (String.append s1 s2)
  = has_line_break s1 || has_line_break s2.
Proof.
  induction s1 as [|a s1 IH]; cbn; [reflexivity |].
  now rewrite IH, orb_assoc.
Qed.

Lemma join_symbols_no_line_break (row : list Cell) :
  (forall cell, cell ∈ row -> has_line_break (symbol cell) = false) ->
  has_line_break (join_symbols row) = false.
Proof.
  unfold join_symbols. induction row as [|cell row IH]; intros H.
  - reflexivity.
  - rewrite fmap_cons, concat_cons, has_line_break_append.
    rewrite (H cell) by (apply elem_of_cons; now left).
    apply IH. intros c Hc. apply H, elem_of_cons. now right.
Qed.

Lemma frame_lines_width (w : nat) (lines : list string) :
  Forall (fun l => String.length l = w /\ has_line_break l = false) lines ->
  Forall (fun l => String.length l = w) lines.
Proof. induction 1 as [|l lines [Hl _] _ IH]; constructor; assumption. Qed.

Lemma frame_text_cons (l : string) (lines : list string) :
  frame_text (l :: lines)
  = String.append l (String.append newline (frame_text lines)).
Proof.
  unfold frame_text. rewrite fmap_cons, concat_cons.
  now rewrite !append_assoc.
Qed.

(** A line without line break is what stands before the first line break. *)
Lemma append_newline_inj (a b r r' : string) :
  has_line_break a = false -> has_line_break b = false ->
  String.append a (String.append newline r)
  = String.append b (String.append newline r') ->
  a = b /\ r = r'.
Proof.
  revert b. induction a as [|c a IH]; intros [|d b] Ha Hb Heq; cbn in *.
  - injection Heq as ->. now split.
  - injection Heq as <- _. cbn in Hb. discriminate.
  - injection Heq as -> _. cbn in Ha. discriminate.
  - injection Heq as -> Heq.
    apply orb_false_iff in Ha as [_ Ha]. apply orb_false_iff in Hb as [_ Hb].
    destruct (IH b Ha Hb Heq) as [-> ->]. now split.
Qed.

Lemma frame_text_inj (l1 l2 : list string) :
  Forall (fun l => has_line_break l = false) l1 ->
  Forall (fun l => has_line_break l = false) l2 ->
  frame_text l1 = frame_text l2 -> l1 = l2.
Proof.
  intros H1. revert l2.
  induction H1 as [|a l1 Ha _ IH]; intros l2 H2 Heq;
    destruct H2 as [|b l2 Hb H2].
  - reflexivity.
  - rewrite frame_text_cons in Heq.
    change (frame_text []) with (String.append "" (String.append newline ""))
      in Heq.
    apply append_newline_inj in Heq as [_ Heq]; [| reflexivity | exact Hb].
    apply (f_equal String.length) in Heq. unfold frame_text in Heq.
    rewrite length_append in Heq. cbn in Heq. lia.
  - rewrite frame_text_cons in Heq.
    change (frame_text []) with (String.append "" (String.append newline ""))
      in Heq.
    apply append_newline_inj in Heq as [_ Heq]; [| exact Ha | reflexivity].
    apply (f_equal String.length) in Heq. unfold frame_text in Heq.
    rewrite length_append in Heq. cbn in Heq. lia.
  - rewrite !frame_text_cons in Heq.
    apply append_newline_inj in Heq as [-> Heq]; [| exact Ha | exact Hb].
    now rewrite (IH l2 H2 Heq).
Qed.

(** A text is a frame of one shape at most: the number of lines is fixed,
    and so is their width when there is a line. *)
Lemma is_frame_unique (w h w' h' : nat) (text : string) :
  is_frame w h text -> is_frame w' h' text ->
  h' = h /\ ((0 < h)%nat -> w' = w).
Proof.
  intros (l1 & Hlen1 & Hf1 & ->) (l2 & Hlen2 & Hf2 & Heq).
  assert (Hl : l1 = l2).
  { apply frame_text_inj; [| | exact Heq].
    - clear -Hf1. induction Hf1 as [|l lines [_ Hl] _ IH]; constructor;
        assumption.
    - clear -Hf2. induction Hf2 as [|l lines [_ Hl] _ IH]; constructor;
        assumption. }
  subst l2. split; [congruence |].
  intros Hpos. destruct Hf1 as [|l lines [Hw _] _]; [cbn in Hlen1; lia |].
  inversion Hf2 as [|? ? [Hw' _] _]. congruence.
Qed.

(** C4 as stated fails: on a 1x1 grid whose cell is active with the symbol
    ["AB"], the text [render] prints is not a frame of one line of one
    character. *)
Lemma wide_symbol_breaks_frame_width :
  exists self' text,
    activate_cell 0 0 (Some "AB"%string) (Display_init 1 1) = Done self' tt
    /\ render self' [] = [cursor_home; text]
    /\ ~ is_frame (Z.to_nat (size_x self')) (Z.to_nat (size_y self')) text.
Proof.
  eexists. eexists. split; [reflexivity |]. split; [reflexivity |].
  intros (lines & Hlen & Hwidth & Htext).
  apply (f_equal String.length) in Htext.
  rewrite (frame_text_length _ _ (frame_lines_width _ _ Hwidth)), Hlen
    in Htext.
  vm_compute in Htext. discriminate.
Qed.

(** C4 as stated fails for a symbol of one character too, when the
    character is a line break: on a 1x1 grid whose cell is active with it,
    the text [render] prints has two lines and no character, not one line of
    one character. *)
Lemma line_break_symbol_breaks_frame_shape :
  exists self' text,
    activate_cell 0 0 (Some newline) (Display_init 1 1) = Done self' tt
    /\ render self' [] = [cursor_home; text]
    /\ is_frame 0 2 text
    /\ ~ is_frame (Z.to_nat (size_x self')) (Z.to_nat (size_y self')) text.
Proof.
  eexists. eexists. split; [reflexivity |]. split; [reflexivity |].
  assert (H02 : is_frame 0 2 (frame_text [""%string; ""%string])).
  { exists [""%string; ""%string]. split; [reflexivity |].
    split; [| reflexivity]. repeat constructor. }
  split; [exact H02 |].
  intros H11. destruct (is_frame_unique _ _ _ _ _ H02 H11) as [Hh _].
  vm_compute in Hh. discriminate.
Qed.

(** C4 (amended). [render] writes the cursor-home sequence and then, in one
    call of [print], one frame: for each row of the grid in order, the
    concatenation of the symbols of its cells in column order followed by a
    line break, and a final line break.  On a grid as the constructor
    builds it there are [size_y] rows; provided every cell's symbol is a
    single character other than a line break, every such line has exactly
    [size_x] characters and holds no line break, so that the text is a
    frame of [size_y] lines of [size_x] characters and of no other shape.
    With only the cell [(0, 0)] active, with symbol ['X'], the first line
    is ['X'] followed by [size_x - 1] spaces and the other [size_y - 1]
    lines are [size_x] spaces. *)
Theorem render_spec :
  (forall (self : Display) (out : console),
      render self out
      = out ++ [cursor_home; frame_text (join_symbols <$> display self)])
  /\ (forall self : Display,
         grid_ok self = true ->
         length (join_symbols <$> display self) = Z.to_nat (size_y self)
         /\ ((forall row cell,
                 row ∈ display self -> cell ∈ row ->
                 String.length (symbol cell) = 1%nat
                 /\ has_line_break (symbol cell) = false) ->
             Forall (fun l => String.length l = Z.to_nat (size_x self)
                              /\ has_line_break l = false)
                    (join_symbols <$> display self)
             /\ forall out,
                 exists text,
                   render self out = out ++ [cursor_home; text]
                   /\ is_frame (Z.to_nat (size_x self))
                               (Z.to_nat (size_y self)) text
                   /\ forall w' h',
                       is_frame w' h' text ->
                       h' = Z.to_nat (size_y self)
                       /\ ((0 < Z.to_nat (size_y self))%nat ->
                           w' = Z.to_nat (size_x self))))
  /\ (forall (w h : Z) (self' : Display),
         0 < w -> 0 < h ->
         activate_cell 0 0 (Some "X"%string) (Display_init w h)
         = Done self' tt ->
         render self' []
         = [cursor_home;
            frame_text
              (String.append "X" (spaces (Z.to_nat (w - 1)))
               :: replicate (Z.to_nat (h - 1)) (spaces (Z.to_nat w)))]).
Proof.
  split; [exact render_eq | split].
  - intros self Hok. apply grid_ok_wf in Hok. split.
    + rewrite length_fmap. apply (wf_height _ Hok).
    + intros Hsingle.
      assert (Hlines : Forall (fun l => String.length l
                                        = Z.to_nat (size_x self)
                                        /\ has_line_break l = false)
                              (join_symbols <$> display self)).
      { apply Forall_fmap, Forall_forall. intros row Hrow. cbn. split.
        - rewrite join_symbols_length
            by (intros cell Hcell; now apply (Hsingle row cell)).
          apply list_elem_of_lookup in Hrow as [r Hr].
          apply (wf_width _ Hok r row Hr).
        - apply join_symbols_no_line_break.
          intros cell Hcell. now apply (Hsingle row cell). }
      split; [exact Hlines |].
      intros out.
      assert (Hframe : is_frame (Z.to_nat (size_x self))
                                (Z.to_nat (size_y self))
                                (frame_text (join_symbols <$> display self))).
      { exists (join_symbols <$> display self).
        split; [rewrite length_fmap; apply (wf_height _ Hok) |].
        split; [exact Hlines | reflexivity]. }
      eexists. split; [apply render_eq |]. split; [exact Hframe |].
      intros w' h' Hother. exact (is_frame_unique _ _ _ _ _ Hframe Hother).
  - intros w h self' Hw Hh Hact.
    rewrite activate_cell_in in Hact;
      [| apply Display_init_wf | apply check_coordinates_spec; cbn; lia].
    injection Hact as <-. rewrite render_eq. cbn [app]. do 3 f_equal.
    unfold update_cell, Display_init, _display_init, range, ref_of.
    cbn [display fst snd]. change (Z.to_nat 0) with 0%nat.
    rewrite (seqZ_cons 0 h) by lia. rewrite fmap_cons.
    cbn [alter list_alter]. rewrite fmap_cons. f_equal.
    + rewrite (seqZ_cons 0 w) by lia. rewrite fmap_cons.
      cbn [alter list_alter].
      unfold join_symbols at 1. rewrite fmap_cons, concat_cons.
      fold (join_symbols
              ((fun col => Cell_init col 0 EMPTY_CELL_SYMBOL)
               <$> seqZ (Z.succ 0) (Z.pred w))).
      rewrite join_symbols_blank, length_seqZ.
      now replace (Z.pred w) with (w - 1) by lia.
    + fold (range w). rewrite blank_rows, length_seqZ.
      now replace (Z.pred h) with (h - 1) by lia.
Qed.

Lemma render_spec_witness :
  (exists text,
      render (update_cell (Cell_activate (Some "X"%string)) (0%nat, 1%nat)
                          (Display_init 3 2)) []
      = [cursor_home; text]
      /\ is_frame 3 2 text
      /\ forall w' h', is_frame w' h' text ->
                       h' = 2%nat /\ ((0 < 2)%nat -> w' = 3%nat))
  /\ render (update_cell (Cell_activate (Some (glyph (Some "X"%string))))
                         (ref_of 0 0) (Display_init 3 2)) []
     = [cursor_home;
        frame_text [String.append "X" (spaces 2); spaces 3]].
Proof.
  split.
  - refine (proj2 (proj2 (proj1 (proj2 render_spec)
                            (update_cell (Cell_activate (Some "X"%string))
                                         (0%nat, 1%nat) (Display_init 3 2))
                            eq_refl) _) []).
    intros row cell Hrow Hcell.
    apply list_elem_of_In in Hrow. apply list_elem_of_In in Hcell.
    vm_compute in Hrow.
    repeat (destruct Hrow as [<- | Hrow];
            [vm_compute in Hcell;
             repeat (destruct Hcell as [<- | Hcell];
                     [split; reflexivity |]);
             destruct Hcell |]).
    destruct Hrow.
  - apply (proj2 (proj2 render_spec) 3 2); [lia | lia | reflexivity].
Defined.

(** ** The frame loop *)

Lemma frame_gen_mon : monotone1 frame_gen.
Proof.
  intros t r r' H LE. unfold frame_gen in *.
  destruct H; econstructor; eauto.
Qed.

#[local] Hint Resolve frame_gen_mon : paco.

Lemma run_without_fps_limit_unpaced : unpaced _run_without_fps_limit.
Proof.
  pcofix CIH. pfold. unfold frame_gen. cbn.
  eapply frame_step; [cbn; reflexivity | cbn; reflexivity |].
  right. exact CIH.
Qed.

(** C9. [run] with no argument, or with an argument Python takes for false
    (zero), is the loop without limit: [run(0)] is the same computation as
    [run(None)], and every iteration of it calls [update] and then [render],
    with no call of [time.time] or [time.sleep]. *)
Theorem run_falsy_unlimited :
  truthy None = false
  /\ truthy (Some 0%float) = false
  /\ run (Some 0%float) ≅ run None
  /\ forall fps : option float,
       truthy fps = false ->
       run fps ≅ _run_without_fps_limit /\ unpaced (run fps).
Proof.
  assert (H : forall fps, truthy fps = false ->
                          run fps ≅ _run_without_fps_limit /\ unpaced (run fps)).
  { intros fps Hfps. unfold run. rewrite Hfps. split.
    - rewrite bind_ret_l. reflexivity.
    - pfold. unfold frame_gen. cbn.
      eapply frame_step; [cbn; reflexivity | cbn; reflexivity |].
      left. apply run_without_fps_limit_unpaced. }
  split; [reflexivity |]. split; [reflexivity |]. split; [| exact H].
  rewrite (proj1 (H (Some 0%float) eq_refl)).
  rewrite (proj1 (H None eq_refl)). reflexivity.
Qed.

Lemma run_falsy_unlimited_witness :
  run (Some 0%float) ≅ _run_without_fps_limit /\ unpaced (run (Some 0%float)).
Proof.
  apply (proj2 (proj2 (proj2 run_falsy_unlimited)) (Some 0%float)).
  reflexivity.
Defined.

(** ** Every method keeps the grid as the constructor builds it *)

Lemma activate_cell_wf (x y : Z) (s : option string) (self : Display) :
  wf self -> wf (state_of (activate_cell x y s self)).
Proof.
  intros Hwf. destruct (_check_coordinates self x y) eqn:Hin.
  - rewrite (activate_cell_in _ _ _ _ Hwf Hin). cbn.
    apply update_cell_wf; [apply Cell_activate_keeps_position | exact Hwf].
  - now rewrite (activate_cell_out _ _ _ _ Hin).
Qed.

Lemma deactivate_cell_wf (x y : Z) (self : Display) :
  wf self -> wf (state_of (deactivate_cell x y self)).
Proof.
  intros Hwf. destruct (_check_coordinates self x y) eqn:Hin.
  - rewrite (deactivate_cell_in _ _ _ Hwf Hin). cbn.
    apply update_cell_wf; [apply Cell_deactivate_keeps_position | exact Hwf].
  - now rewrite (deactivate_cell_out _ _ _ Hin).
Qed.

Lemma draw_object_wf (o : EngineObject) (x y : Z) (self : Display) :
  wf self -> wf (state_of (draw_object o x y self)).
Proof.
  intros Hwf.
  destruct (draw_object_run self o x y Hwf) as (self' & -> & Hwf' & _).
  exact Hwf'.
Qed.

Lemma del_loop_wf (refs : list CellRef) :
  forall self, wf self -> wf (state_of (del_loop refs self)).
Proof.
  induction refs as [|ref refs IH]; intros self Hwf; [exact Hwf |].
  destruct (deref self ref) as [cell|] eqn:Hd.
  - rewrite (del_loop_cons _ _ _ _ Hwf Hd). apply IH.
    apply update_cell_wf; [apply Cell_deactivate_keeps_position | exact Hwf].
  - cbn [del_loop]. unfold bind, get. now rewrite Hd.
Qed.

Lemma del_object_wf (o : EngineObject) (self : Display) :
  wf self -> wf (state_of (del_object o self)).
Proof.
  intros Hwf. unfold del_object.
  destruct (object_coordinates o) as [refs|]; [| exact Hwf].
  pose proof (del_loop_wf refs self Hwf) as H. unfold bind.
  now destruct (del_loop refs self).
Qed.

Lemma move_object_wf (o : EngineObject) (x y : Z) (self : Display) :
  wf self -> wf (state_of (move_object o x y self)).
Proof.
  intros Hwf. pose proof (del_object_wf o self Hwf) as H.
  unfold move_object, bind.
  destruct (del_object o self) as [self1 o1 | self1 e]; [| exact H].
  now apply draw_object_wf.
Qed.

(** The constructor establishes [grid_ok] and every method of [Display]
    that mutates the grid keeps it, whether it returns or raises. *)
Lemma methods_keep_grid_ok :
  (forall w h, grid_ok (Display_init w h) = true)
  /\ forall self,
       grid_ok self = true ->
       (forall x y s, grid_ok (state_of (activate_cell x y s self)) = true)
       /\ (forall x y, grid_ok (state_of (deactivate_cell x y self)) = true)
       /\ (forall o x y, grid_ok (state_of (draw_object o x y self)) = true)
       /\ (forall o, grid_ok (state_of (del_object o self)) = true)
       /\ (forall o x y, grid_ok (state_of (move_object o x y self)) = true).
Proof.
  split; [exact Display_init_ok |].
  intros self Hok. apply grid_ok_wf in Hok.
  repeat split; intros; apply grid_ok_wf.
  - now apply activate_cell_wf.
  - now apply deactivate_cell_wf.
  - now apply draw_object_wf.
  - now apply del_object_wf.
  - now apply move_object_wf.
Qed.

(** * Further properties of the display *)

(** ** Displays with the same cells *)

Lemma display_ext (d1 d2 : Display) :
  wf d1 -> wf d2 ->
  size_x d1 = size_x d2 -> size_y d1 = size_y d2 ->
  (forall ref, deref d1 ref = deref d2 ref) ->
  d1 = d2.
Proof.
  intros Hwf1 Hwf2 Hx Hy Hcells.
  pose proof (wf_height _ Hwf1) as Hh1. pose proof (wf_height _ Hwf2) as Hh2.
  destruct d1 as [w1 h1 rows1], d2 as [w2 h2 rows2].
  cbn [size_x size_y display] in *. subst w2 h2. f_equal.
  apply list_eq. intros r.
  destruct (rows1 !! r) as [row1|] eqn:Hr1, (rows2 !! r) as [row2|] eqn:Hr2.
  - f_equal. apply list_eq. intros c. specialize (Hcells (r, c)).
    unfold deref in Hcells. cbn [display fst snd] in Hcells.
    now rewrite Hr1, Hr2 in Hcells.
  - apply lookup_lt_Some in Hr1. apply lookup_ge_None in Hr2. lia.
  - apply lookup_ge_None in Hr1. apply lookup_lt_Some in Hr2. lia.
  - reflexivity.
Qed.

Lemma deref_None_sizes (d1 d2 : Display) (ref : CellRef) :
  wf d1 -> wf d2 ->
  size_x d1 = size_x d2 -> size_y d1 = size_y d2 ->
  deref d1 ref = None -> deref d2 ref = None.
Proof.
  intros Hwf1 Hwf2 Hx Hy Hnone.
  destruct (deref d2 ref) as [cell|] eqn:Hd; [| reflexivity].
  destruct (deref_in_bounds _ Hwf2 _ _ Hd) as [Hin Href].
  rewrite <- (check_coordinates_sizes d2 d1) in Hin by assumption.
  destruct (cell_at_in_bounds _ Hwf1 _ _ Hin) as (cell1 & Hcell1 & _).
  unfold cell_at in Hcell1. rewrite Href in Hcell1. congruence.
Qed.

Lemma display_ext_cells (d1 d2 : Display) :
  wf d1 -> wf d2 ->
  size_x d1 = size_x d2 -> size_y d1 = size_y d2 ->
  (forall x y, _check_coordinates d1 x y = true ->
               cell_at d1 x y = cell_at d2 x y) ->
  d1 = d2.
Proof.
  intros Hwf1 Hwf2 Hx Hy Hcells.
  apply display_ext; try assumption.
  intros ref. destruct (deref d1 ref) as [cell|] eqn:Hd.
  - destruct (deref_in_bounds _ Hwf1 _ _ Hd) as [Hin Href].
    specialize (Hcells _ _ Hin). unfold cell_at in Hcells.
    rewrite Href in Hcells. congruence.
  - symmetry. now apply (deref_None_sizes d1 d2).
Qed.

Lemma Display_init_cell (w h : Z) (r c : nat) (cell : Cell) :
  deref (Display_init w h) (r, c) = Some cell ->
  cell = mkCell (Z.of_nat c) (Z.of_nat r) EMPTY_CELL_SYMBOL false.
Proof.
  unfold deref, Display_init, _display_init, range.
  cbn [display size_x size_y fst snd].
  rewrite list_lookup_fmap.
  destruct (seqZ 0 h !! r) as [row|] eqn:Hr; [| discriminate].
  cbn [fmap option_fmap option_map mbind option_bind].
  rewrite list_lookup_fmap.
  destruct (seqZ 0 w !! c) as [col|] eqn:Hc; [| discriminate].
  apply lookup_seqZ in Hr, Hc. intros [= <-]. unfold Cell_init.
  f_equal; lia.
Qed.

Lemma blank_spec (cell : Cell) :
  blank cell = true ->
  cell = mkCell (cell_x cell) (cell_y cell) EMPTY_CELL_SYMBOL false.
Proof.
  destruct cell as [cx cy s a]. unfold blank. cbn.
  intros H. apply andb_true_iff in H as [Ha Hs].
  apply String.eqb_eq in Hs. destruct a; [discriminate | now subst s].
Qed.

Lemma last_filter_None {A} (p : A -> bool) (l : list A) :
  last (List.filter p l) = None <-> existsb p l = false.
Proof.
  rewrite last_None. induction l as [|a l IH]; cbn; [tauto |].
  destruct (p a); cbn; [split; discriminate | exact IH].
Qed.

(** ** Single-cell operations, continued *)

Lemma update_cell_absorb (f g : Cell -> Cell) (ref : CellRef)
    (self : Display) :
  (forall cell, f (g cell) = f cell) ->
  update_cell f ref (update_cell g ref self) = update_cell f ref self.
Proof.
  intros Hfg. unfold update_cell. cbn [display size_x size_y]. f_equal.
  rewrite list_alter_alter_eq. apply list_alter_ext; [| reflexivity].
  intros row _. cbn. rewrite list_alter_alter_eq.
  apply list_alter_ext; [| reflexivity]. intros cell _. apply Hfg.
Qed.

(** X1. Of two single-cell operations on the same coordinates the second
    decides: activating twice leaves what the second activation alone
    leaves, deactivating after activating leaves what deactivating alone
    leaves, and deactivating twice is deactivating once. *)
Theorem single_cell_last_wins (self : Display) (x y : Z)
    (s1 s2 : option string) :
  grid_ok self = true ->
  exists a d,
    activate_cell x y s2 self = Done a tt
    /\ deactivate_cell x y self = Done d tt
    /\ (exists a1, activate_cell x y s1 self = Done a1 tt
                   /\ activate_cell x y s2 a1 = Done a tt
                   /\ deactivate_cell x y a1 = Done d tt)
    /\ deactivate_cell x y d = Done d tt
    /\ activate_cell x y s2 d = Done a tt.
Proof.
  intros Hok. apply grid_ok_wf in Hok.
  destruct (_check_coordinates self x y) eqn:Hin.
  - set (act := fun s => update_cell (Cell_activate (Some (glyph s)))
                                     (ref_of x y) self).
    set (d := update_cell Cell_deactivate (ref_of x y) self).
    assert (Hwfa : forall s, wf (act s))
      by (intros s; apply update_cell_wf;
          [apply Cell_activate_keeps_position | exact Hok]).
    assert (Hwfd : wf d)
      by (apply update_cell_wf;
          [apply Cell_deactivate_keeps_position | exact Hok]).
    exists (act s2), d.
    split; [now apply activate_cell_in |].
    split; [now apply deactivate_cell_in |].
    split; [exists (act s1); split; [now apply activate_cell_in | split] |
            split].
    + rewrite (activate_cell_in _ _ _ _ (Hwfa s1) Hin). f_equal.
      now apply update_cell_absorb.
    + rewrite (deactivate_cell_in _ _ _ (Hwfa s1) Hin). f_equal.
      now apply update_cell_absorb.
    + rewrite (deactivate_cell_in _ _ _ Hwfd Hin). f_equal.
      now apply update_cell_absorb.
    + rewrite (activate_cell_in _ _ _ _ Hwfd Hin). f_equal.
      now apply update_cell_absorb.
  - exists self, self.
    split; [now apply activate_cell_out |].
    split; [now apply deactivate_cell_out |].
    split; [exists self; split; [now apply activate_cell_out | split] |
            split].
    + now apply activate_cell_out.
    + now apply deactivate_cell_out.
    + now apply deactivate_cell_out.
    + now apply activate_cell_out.
Qed.

Lemma single_cell_last_wins_witness :
  exists a d,
    activate_cell 1 0 None (Display_init 3 2) = Done a tt
    /\ deactivate_cell 1 0 (Display_init 3 2) = Done d tt
    /\ (exists a1,
           activate_cell 1 0 (Some "A"%string) (Display_init 3 2) = Done a1 tt
           /\ activate_cell 1 0 None a1 = Done a tt
           /\ deactivate_cell 1 0 a1 = Done d tt)
    /\ deactivate_cell 1 0 d = Done d tt
    /\ activate_cell 1 0 None d = Done a tt.
Proof.
  apply (single_cell_last_wins (Display_init 3 2) 1 0 (Some "A"%string) None).
  reflexivity.
Defined.

(** X2. A single-cell operation touches one cell only: after
    [activate_cell] or [deactivate_cell] at [(x, y)], every cell at other
    in-bounds coordinates is as it was, and [check_cell_condition] answers
    there as before. *)
Theorem single_cell_frame (self : Display) (x y x' y' : Z)
    (s : option string) :
  grid_ok self = true ->
  0 <= x' < size_x self /\ 0 <= y' < size_y self ->
  (x', y') <> (x, y) ->
  exists a d b,
    activate_cell x y s self = Done a tt
    /\ deactivate_cell x y self = Done d tt
    /\ cell_at a x' y' = cell_at self x' y'
    /\ cell_at d x' y' = cell_at self x' y'
    /\ check_cell_condition x' y' self = Done self b
    /\ check_cell_condition x' y' a = Done a b
    /\ check_cell_condition x' y' d = Done d b.
Proof.
  intros Hok Hin' Hne. apply grid_ok_wf in Hok.
  apply check_coordinates_spec in Hin'.
  destruct (cell_at_in_bounds _ Hok _ _ Hin') as (cell & Hcell & _).
  destruct (_check_coordinates self x y) eqn:Hin.
  - assert (Href : ref_of x y <> ref_of x' y').
    { intros Heq. apply (ref_of_inj self) in Heq as [-> ->]; auto. }
    set (a := update_cell (Cell_activate (Some (glyph s))) (ref_of x y) self).
    set (d := update_cell Cell_deactivate (ref_of x y) self).
    assert (Hwfa : wf a)
      by (apply update_cell_wf;
          [apply Cell_activate_keeps_position | exact Hok]).
    assert (Hwfd : wf d)
      by (apply update_cell_wf;
          [apply Cell_deactivate_keeps_position | exact Hok]).
    assert (Ha : cell_at a x' y' = Some cell)
      by (unfold cell_at, a; rewrite deref_update_ne by exact Href;
          exact Hcell).
    assert (Hd : cell_at d x' y' = Some cell)
      by (unfold cell_at, d; rewrite deref_update_ne by exact Href;
          exact Hcell).
    exists a, d, (is_active cell).
    split; [now apply activate_cell_in |].
    split; [now apply deactivate_cell_in |].
    split; [congruence |]. split; [congruence |].
    split; [now apply check_cell_condition_in |].
    split; now apply check_cell_condition_in.
  - exists self, self, (is_active cell).
    split; [now apply activate_cell_out |].
    split; [now apply deactivate_cell_out |].
    split; [reflexivity |]. split; [reflexivity |].
    assert (H : check_cell_condition x' y' self = Done self (is_active cell))
      by now apply check_cell_condition_in.
    auto.
Qed.

Lemma single_cell_frame_witness :
  exists a d b,
    activate_cell 1 0 None (Display_init 3 2) = Done a tt
    /\ deactivate_cell 1 0 (Display_init 3 2) = Done d tt
    /\ cell_at a 2 1 = cell_at (Display_init 3 2) 2 1
    /\ cell_at d 2 1 = cell_at (Display_init 3 2) 2 1
    /\ check_cell_condition 2 1 (Display_init 3 2)
       = Done (Display_init 3 2) b
    /\ check_cell_condition 2 1 a = Done a b
    /\ check_cell_condition 2 1 d = Done d b.
Proof.
  apply (single_cell_frame (Display_init 3 2) 1 0 2 1 None).
  - reflexivity.
  - simpl. lia.
  - discriminate.
Defined.

(** ** The constructor *)

Lemma filter_none {A} (p : A -> bool) (l : list A) :
  (forall a, In a l -> p a = false) -> List.filter p l = [].
Proof.
  induction l as [|a l IH]; intros H; [reflexivity |].
  cbn. rewrite (H a) by now left. apply IH. intros b Hb. apply H. now right.
Qed.

Lemma Display_init_cell_at (w h x y : Z) :
  _check_coordinates (Display_init w h) x y = true ->
  cell_at (Display_init w h) x y = Some (mkCell x y " "%string false).
Proof.
  intros Hin.
  destruct (cell_at_in_bounds _ (Display_init_wf w h) _ _ Hin)
    as (cell & Hcell & Hx & Hy).
  rewrite Hcell. f_equal. unfold cell_at, ref_of in Hcell.
  apply Display_init_cell in Hcell. subst cell. cbn in Hx, Hy.
  now rewrite Hx, Hy.
Qed.

(** X3. A display as [Display.__init__] leaves it, for any sizes: every
    in-bounds cell is inactive, holds the symbol [" "] and carries its own
    coordinates; [check_cell_condition] is [False] everywhere; and when a
    size is zero or negative no coordinates are in bounds. *)
Theorem fresh_display (w h : Z) :
  (forall x y,
      0 <= x < w /\ 0 <= y < h ->
      cell_at (Display_init w h) x y = Some (mkCell x y " "%string false))
  /\ (forall x y,
         check_cell_condition x y (Display_init w h)
         = Done (Display_init w h) false)
  /\ active_cells (Display_init w h) = []
  /\ (w <= 0 \/ h <= 0 ->
      forall x y, _check_coordinates (Display_init w h) x y = false).
Proof.
  pose proof (Display_init_wf w h) as Hwf.
  assert (Hcell : forall x y,
             _check_coordinates (Display_init w h) x y = true ->
             cell_at (Display_init w h) x y
             = Some (mkCell x y " "%string false)).
  { intros x y Hin.
    destruct (cell_at_in_bounds _ Hwf _ _ Hin) as (cell & Hcell & Hx & Hy).
    rewrite Hcell. f_equal. unfold cell_at, ref_of in Hcell.
    apply Display_init_cell in Hcell. subst cell. cbn in Hx, Hy.
    now rewrite Hx, Hy. }
  split; [| split; [| split]].
  - intros x y Hin. apply Hcell. now apply check_coordinates_spec.
  - intros x y. destruct (_check_coordinates (Display_init w h) x y) eqn:Hin.
    + now rewrite (check_cell_condition_in _ _ _ _ Hwf Hin (Hcell x y Hin)).
    + now apply check_cell_condition_out.
  - unfold active_cells. apply filter_none. intros cell Hin.
    apply in_concat in Hin as (row & Hrow & Hin).
    apply list_elem_of_In, list_elem_of_lookup in Hrow as [r Hr].
    apply list_elem_of_In, list_elem_of_lookup in Hin as [c Hc].
    assert (Hd : deref (Display_init w h) (r, c) = Some cell)
      by (unfold deref; cbn [fst snd]; now rewrite Hr).
    apply Display_init_cell in Hd. now subst cell.
  - intros Hneg x y.
    destruct (_check_coordinates (Display_init w h) x y) eqn:Hin;
      [| reflexivity].
    apply check_coordinates_spec in Hin. cbn in Hin. lia.
Qed.

Lemma fresh_display_witness :
  cell_at (Display_init 3 2) 2 1 = Some (mkCell 2 1 " "%string false)
  /\ forall x y, _check_coordinates (Display_init 0 5) x y = false.
Proof.
  split.
  - apply (proj1 (fresh_display 3 2) 2 1). lia.
  - apply (proj2 (proj2 (proj2 (fresh_display 0 5)))). left. lia.
Defined.

(** ** The shape of the grid *)

Lemma activate_cell_sizes (x y : Z) (s : option string) (self : Display) :
  wf self ->
  size_x (state_of (activate_cell x y s self)) = size_x self
  /\ size_y (state_of (activate_cell x y s self)) = size_y self.
Proof.
  intros Hwf. destruct (_check_coordinates self x y) eqn:Hin.
  - now rewrite (activate_cell_in _ _ _ _ Hwf Hin).
  - now rewrite (activate_cell_out _ _ _ _ Hin).
Qed.

Lemma deactivate_cell_sizes (x y : Z) (self : Display) :
  wf self ->
  size_x (state_of (deactivate_cell x y self)) = size_x self
  /\ size_y (state_of (deactivate_cell x y self)) = size_y self.
Proof.
  intros Hwf. destruct (_check_coordinates self x y) eqn:Hin.
  - now rewrite (deactivate_cell_in _ _ _ Hwf Hin).
  - now rewrite (deactivate_cell_out _ _ _ Hin).
Qed.

Lemma draw_object_sizes (o : EngineObject) (x y : Z) (self : Display) :
  wf self ->
  size_x (state_of (draw_object o x y self)) = size_x self
  /\ size_y (state_of (draw_object o x y self)) = size_y self.
Proof.
  intros Hwf.
  destruct (draw_object_run self o x y Hwf) as (self' & -> & _ & Hx & Hy & _).
  now split.
Qed.

Lemma del_loop_sizes (refs : list CellRef) :
  forall self,
    wf self ->
    size_x (state_of (del_loop refs self)) = size_x self
    /\ size_y (state_of (del_loop refs self)) = size_y self.
Proof.
  induction refs as [|ref refs IH]; intros self Hwf; [now split |].
  destruct (deref self ref) as [cell|] eqn:Hd.
  - rewrite (del_loop_cons _ _ _ _ Hwf Hd).
    apply (IH (update_cell Cell_deactivate ref self)).
    apply update_cell_wf; [apply Cell_deactivate_keeps_position | exact Hwf].
  - cbn [del_loop]. unfold bind, get. rewrite Hd. now split.
Qed.

Lemma del_object_sizes (o : EngineObject) (self : Display) :
  wf self ->
  size_x (state_of (del_object o self)) = size_x self
  /\ size_y (state_of (del_object o self)) = size_y self.
Proof.
  intros Hwf. unfold del_object.
  destruct (object_coordinates o) as [refs|]; [| now split].
  pose proof (del_loop_sizes refs self Hwf) as H. unfold bind.
  now destruct (del_loop refs self).
Qed.

Lemma move_object_sizes (o : EngineObject) (x y : Z) (self : Display) :
  wf self ->
  size_x (state_of (move_object o x y self)) = size_x self
  /\ size_y (state_of (move_object o x y self)) = size_y self.
Proof.
  intros Hwf. pose proof (del_object_sizes o self Hwf) as [Hx Hy].
  pose proof (del_object_wf o self Hwf) as Hwf1.
  unfold move_object, bind.
  destruct (del_object o self) as [self1 o1 | self1 e]; [| now split].
  cbn [state_of] in *.
  destruct (draw_object_sizes o1 x y self1 Hwf1) as [Hx' Hy'].
  split; congruence.
Qed.

(** X4. No method of [Display] changes the shape of the grid: after
    [activate_cell], [deactivate_cell], [draw_object], [del_object] and
    [move_object], whether the call returns or raises, [size_x] and [size_y]
    are what they were, the grid still has [size_y] rows of [size_x] cells,
    and every cell still carries the coordinates of its position. *)
Theorem display_shape_invariant (self : Display) :
  grid_ok self = true ->
  forall s',
    (exists x y s, s' = state_of (activate_cell x y s self))
    \/ (exists x y, s' = state_of (deactivate_cell x y self))
    \/ (exists o x y, s' = state_of (draw_object o x y self))
    \/ (exists o, s' = state_of (del_object o self))
    \/ (exists o x y, s' = state_of (move_object o x y self)) ->
    grid_ok s' = true /\ size_x s' = size_x self /\ size_y s' = size_y self.
Proof.
  intros Hok s' Hs'. apply grid_ok_wf in Hok.
  destruct Hs' as [(x & y & s & ->) | [(x & y & ->) | [(o & x & y & ->) |
                   [(o & ->) | (o & x & y & ->)]]]].
  - split; [apply grid_ok_wf; now apply activate_cell_wf |].
    now apply activate_cell_sizes.
  - split; [apply grid_ok_wf; now apply deactivate_cell_wf |].
    now apply deactivate_cell_sizes.
  - split; [apply grid_ok_wf; now apply draw_object_wf |].
    now apply draw_object_sizes.
  - split; [apply grid_ok_wf; now apply del_object_wf |].
    now apply del_object_sizes.
  - split; [apply grid_ok_wf; now apply move_object_wf |].
    now apply move_object_sizes.
Qed.

Lemma display_shape_invariant_witness :
  let s' := state_of (move_object
                        (mkEngineObject [(0, 0, None)] (Some [(0%nat, 0%nat)]))
                        1 1 (Display_init 3 2)) in
  grid_ok s' = true /\ size_x s' = 3 /\ size_y s' = 2.
Proof.
  intros s'.
  apply (display_shape_invariant (Display_init 3 2) eq_refl s').
  do 4 right.
  now exists (mkEngineObject [(0, 0, None)] (Some [(0%nat, 0%nat)])), 1, 1.
Defined.

(** ** Objects, continued *)

Lemma draw_loop_nothing_lands (sx sy : Z) (form : list offset) :
  forall acc self,
    existsb (lands self sx sy) form = false ->
    draw_loop sx sy form acc self = Done self acc.
Proof.
  induction form as [|c form IH]; intros acc self Hout; [reflexivity |].
  cbn [existsb] in Hout. apply orb_false_iff in Hout as [Hc Hform].
  rewrite (draw_loop_cons_out _ _ _ _ _ _ Hc). now apply IH.
Qed.

(** X5. Drawing an object none of whose offsets lands in bounds (an empty
    form, a display with a zero or negative size, an origin far away)
    returns normally and leaves the display as it was, whatever its state,
    but the object counts as placed, with an empty list of cells: a
    following [del_object] returns normally and changes nothing either. *)
Theorem draw_nothing_lands (self : Display) (o : EngineObject) (x y : Z) :
  (object_form o = [] \/ size_x self <= 0 \/ size_y self <= 0
   \/ existsb (lands self x y) (object_form o) = false) ->
  draw_object o x y self
  = Done self (mkEngineObject (object_form o) (Some []))
  /\ del_object (mkEngineObject (object_form o) (Some [])) self
     = Done self (mkEngineObject (object_form o) None).
Proof.
  intros Hcase.
  assert (Hout : existsb (lands self x y) (object_form o) = false).
  { destruct Hcase as [-> | [Hx | [Hy | H]]]; [reflexivity | | | exact H].
    - destruct (existsb _ _) eqn:E; [| reflexivity].
      apply existsb_exists in E as (c & _ & Hc).
      apply check_coordinates_spec in Hc. lia.
    - destruct (existsb _ _) eqn:E; [| reflexivity].
      apply existsb_exists in E as (c & _ & Hc).
      apply check_coordinates_spec in Hc. lia. }
  split; [| reflexivity].
  unfold draw_object, bind.
  now rewrite (draw_loop_nothing_lands _ _ _ [] self Hout).
Qed.

Lemma draw_nothing_lands_witness :
  draw_object (EngineObject_init [(0, 0, None); (1, 0, Some "B"%string)])
              3 0 (Display_init 3 2)
  = Done (Display_init 3 2)
         (mkEngineObject [(0, 0, None); (1, 0, Some "B"%string)] (Some []))
  /\ del_object
       (mkEngineObject [(0, 0, None); (1, 0, Some "B"%string)] (Some []))
       (Display_init 3 2)
     = Done (Display_init 3 2)
            (mkEngineObject [(0, 0, None); (1, 0, Some "B"%string)] None).
Proof.
  apply (draw_nothing_lands (Display_init 3 2)
           (EngineObject_init [(0, 0, None); (1, 0, Some "B"%string)]) 3 0).
  do 3 right. reflexivity.
Defined.

(** X6. [del_object] leaves the object unplaced, so removing it a second
    time, or moving it, raises [TypeError] and leaves the display as the
    first removal left it; likewise [move_object] on an object that was
    never drawn raises [TypeError] without touching the display. *)
Theorem removed_object_is_unplaced (self : Display) (o : EngineObject)
    (x y : Z) :
  (forall self' o',
      del_object o self = Done self' o' ->
      object_coordinates o' = None
      /\ del_object o' self' = Raised self' TypeError
      /\ move_object o' x y self' = Raised self' TypeError)
  /\ (object_coordinates o = None ->
      move_object o x y self = Raised self TypeError).
Proof.
  assert (Hmove : forall d ob, object_coordinates ob = None ->
                               move_object ob x y d = Raised d TypeError).
  { intros d ob Hnone. unfold move_object, bind, del_object.
    now rewrite Hnone. }
  split; [| apply Hmove].
  intros self' o' Hdel.
  assert (Ho' : object_coordinates o' = None).
  { unfold del_object in Hdel.
    destruct (object_coordinates o) as [refs|]; [| discriminate].
    unfold bind in Hdel. destruct (del_loop refs self); [| discriminate].
    now injection Hdel as _ <-. }
  split; [exact Ho' |]. split; [| now apply Hmove].
  unfold del_object. now rewrite Ho'.
Qed.

Lemma removed_object_is_unplaced_witness :
  del_object (mkEngineObject [(0, 0, None)] None) (Display_init 3 2)
  = Raised (Display_init 3 2) TypeError
  /\ move_object (EngineObject_init [(0, 0, None)]) 1 1 (Display_init 3 2)
     = Raised (Display_init 3 2) TypeError.
Proof.
  split.
  - apply (proj1 (removed_object_is_unplaced (Display_init 3 2)
                    (mkEngineObject [(0, 0, None)] (Some [])) 1 1)
             (Display_init 3 2) (mkEngineObject [(0, 0, None)] None)).
    reflexivity.
  - apply (proj2 (removed_object_is_unplaced (Display_init 3 2)
                    (EngineObject_init [(0, 0, None)]) 1 1)).
    reflexivity.
Defined.

Lemma refs_blank_spec (self : Display) (refs : list CellRef) :
  refs_blank self refs = true <->
  forall ref, ref ∈ refs ->
              exists cell, deref self ref = Some cell /\ blank cell = true.
Proof.
  unfold refs_blank. rewrite forallb_forall. split.
  - intros H ref Hin. apply list_elem_of_In in Hin. specialize (H ref Hin).
    destruct (deref self ref) as [cell|]; [eauto | discriminate].
  - intros H ref Hin. apply list_elem_of_In in Hin.
    now destruct (H ref Hin) as (cell & -> & Hb).
Qed.

Lemma refs_blank_init (w h : Z) (refs : list CellRef) :
  refs_ok (Display_init w h) refs = true ->
  refs_blank (Display_init w h) refs = true.
Proof.
  intros Hok. apply refs_blank_spec. intros [r c] Hin.
  destruct (proj1 (refs_ok_spec _ _) Hok _ Hin) as [cell Hcell].
  exists cell. split; [exact Hcell |].
  apply Display_init_cell in Hcell. now subst cell.
Qed.

Lemma painted_idem (sx sy : Z) (form : list offset) (x y : Z)
    (old : option Cell) :
  painted sx sy form x y (painted sx sy form x y old)
  = painted sx sy form x y old.
Proof.
  unfold painted. now destruct (last (List.filter (hits sx sy x y) form)).
Qed.

Lemma not_in_footprint (self : Display) (sx sy : Z) (form : list offset)
    (x y : Z) :
  _check_coordinates self x y = true ->
  last (List.filter (hits sx sy x y) form) = None ->
  ref_of x y ∉ footprint self sx sy form.
Proof.
  intros Hin Hlast Hmem.
  apply elem_of_footprint in Hmem as (c & Hc & Hland & Heq).
  apply (ref_of_inj self) in Heq as [Hx Hy]; [| exact Hin | exact Hland].
  apply last_None in Hlast.
  assert (Hf : In c (List.filter (hits sx sy x y) form)).
  { apply filter_In. split; [now apply list_elem_of_In |].
    unfold hits. rewrite <- Hx, <- Hy. now rewrite !Z.eqb_refl. }
  rewrite Hlast in Hf. destruct Hf.
Qed.

(** X7. Drawing an object over cells that are all inactive with the symbol
    [" "] and then removing it gives back the very display it started from;
    in particular a freshly constructed display is restored exactly,
    whatever the object and the origin. *)
Theorem draw_then_remove_restores :
  (forall (self : Display) (o : EngineObject) (x y : Z),
      grid_ok self = true ->
      refs_blank self (footprint self x y (object_form o)) = true ->
      exists s1 o1,
        draw_object o x y self = Done s1 o1
        /\ del_object o1 s1
           = Done self (mkEngineObject (object_form o) None))
  /\ (forall (w h : Z) (o : EngineObject) (x y : Z),
         exists s1 o1,
           draw_object o x y (Display_init w h) = Done s1 o1
           /\ del_object o1 s1
              = Done (Display_init w h)
                     (mkEngineObject (object_form o) None)).
Proof.
  assert (H : forall (self : Display) (o : EngineObject) (x y : Z),
             wf self ->
             refs_blank self (footprint self x y (object_form o)) = true ->
             exists s1 o1,
               draw_object o x y self = Done s1 o1
               /\ del_object o1 s1
                  = Done self (mkEngineObject (object_form o) None)).
  { intros self o x y Hwf Hblank.
    destruct (draw_object_run self o x y Hwf)
      as (s1 & Hdraw & Hwf1 & Hsx & Hsy & _).
    set (refs := footprint self x y (object_form o)) in *.
    assert (Hrefs : refs_ok s1 refs = true).
    { unfold refs. rewrite <- (footprint_sizes self s1) by assumption.
      now apply footprint_ok. }
    destruct (del_object_run s1 (mkEngineObject (object_form o) (Some refs))
                refs Hwf1 eq_refl Hrefs)
      as (s2 & Hdel & Hwf2 & Hsx2 & Hsy2 & Hin & Hout).
    exists s1, (mkEngineObject (object_form o) (Some refs)).
    split; [exact Hdraw |]. rewrite Hdel. cbn [object_form]. f_equal.
    apply display_ext; [exact Hwf2 | exact Hwf | congruence | congruence |].
    intros ref. destruct (decide (ref ∈ refs)) as [Hmem | Hmem].
    - rewrite (Hin ref Hmem).
      destruct (proj1 (refs_ok_spec _ _) Hrefs ref Hmem) as [c1 Hc1].
      destruct (proj1 (refs_blank_spec _ _) Hblank ref Hmem)
        as (c0 & Hc0 & Hb).
      rewrite Hc1, Hc0. cbn. f_equal. rewrite (blank_spec _ Hb).
      destruct ref as [r c].
      destruct (wf_cell _ Hwf1 _ _ _ Hc1) as [Hx1 Hy1].
      destruct (wf_cell _ Hwf _ _ _ Hc0) as [Hx0 Hy0].
      unfold Cell_deactivate. congruence.
    - rewrite (Hout ref Hmem).
      apply (draw_object_frame _ _ _ _ _ _ Hwf Hdraw ref Hmem). }
  split.
  - intros self o x y Hok. apply H. now apply grid_ok_wf.
  - intros w h o x y. apply H; [apply Display_init_wf |].
    apply refs_blank_init, footprint_ok, Display_init_wf.
Qed.

Lemma draw_then_remove_restores_witness :
  exists s1 o1,
    draw_object (EngineObject_init [(0, 0, None)]) 1 1
      (update_cell (Cell_activate None) (0%nat, 0%nat) (Display_init 3 2))
    = Done s1 o1
    /\ del_object o1 s1
       = Done (update_cell (Cell_activate None) (0%nat, 0%nat)
                           (Display_init 3 2))
              (mkEngineObject [(0, 0, None)] None).
Proof.
  apply (proj1 draw_then_remove_restores
           (update_cell (Cell_activate None) (0%nat, 0%nat)
                        (Display_init 3 2))
           (EngineObject_init [(0, 0, None)]) 1 1); reflexivity.
Defined.

(** X8. Drawing an object again at the origin it was just drawn at changes
    neither the display nor the object; and moving it to its own origin
    gives back the same display and the same list of cells. *)
Theorem redraw_in_place (self : Display) (o : EngineObject) (x y : Z) :
  grid_ok self = true ->
  exists s1 o1,
    draw_object o x y self = Done s1 o1
    /\ draw_object o1 x y s1 = Done s1 o1
    /\ move_object o1 x y s1 = Done s1 o1.
Proof.
  intros Hok. apply grid_ok_wf in Hok.
  destruct (draw_object_run self o x y Hok)
    as (s1 & Hdraw & Hwf1 & Hsx & Hsy & Hcells).
  set (refs := footprint self x y (object_form o)) in *.
  set (o1 := mkEngineObject (object_form o) (Some refs)) in *.
  exists s1, o1. split; [exact Hdraw |]. split.
  - destruct (draw_object_run s1 o1 x y Hwf1)
      as (s2 & Hdraw2 & Hwf2 & Hsx2 & Hsy2 & Hcells2).
    rewrite Hdraw2. cbn [object_form o1].
    rewrite (footprint_sizes self s1) by assumption. fold refs. f_equal.
    apply display_ext_cells; try assumption.
    intros x' y' Hin.
    rewrite (check_coordinates_sizes s1 s2) in Hin by assumption.
    rewrite (Hcells2 x' y' Hin).
    rewrite (check_coordinates_sizes self s1) in Hin by assumption.
    rewrite (Hcells x' y' Hin). cbn [object_form o1]. apply painted_idem.
  - assert (Hrefs : refs_ok s1 refs = true).
    { unfold refs. rewrite <- (footprint_sizes self s1) by assumption.
      now apply footprint_ok. }
    destruct (del_object_run s1 o1 refs Hwf1 eq_refl Hrefs)
      as (s2 & Hdel & Hwf2 & Hsx2 & Hsy2 & Hin2 & Hout2).
    destruct (draw_object_run s2 (mkEngineObject (object_form o) None)
                x y Hwf2)
      as (s3 & Hdraw3 & Hwf3 & Hsx3 & Hsy3 & Hcells3).
    unfold move_object, bind. rewrite Hdel. cbn [object_form o1].
    rewrite Hdraw3. cbn [object_form].
    rewrite (footprint_sizes self s2) by congruence. fold refs. fold o1.
    f_equal.
    apply display_ext_cells; [exact Hwf3 | exact Hwf1 | congruence
                              | congruence |].
    intros x' y' Hin.
    rewrite (check_coordinates_sizes s2 s3) in Hin by assumption.
    rewrite (Hcells3 x' y' Hin). cbn [object_form].
    rewrite (check_coordinates_sizes s1 s2) in Hin by assumption.
    rewrite (check_coordinates_sizes self s1) in Hin by assumption.
    rewrite (Hcells x' y' Hin). unfold painted.
    destruct (last (List.filter (hits x y x' y') (object_form o)))
      as [c|] eqn:Hlast; [reflexivity |].
    unfold cell_at. rewrite Hout2.
    + rewrite (draw_object_frame _ _ _ _ _ _ Hok Hdraw); [reflexivity |].
      now apply not_in_footprint.
    + now apply not_in_footprint.
Qed.

Lemma redraw_in_place_witness :
  exists s1 o1,
    draw_object (EngineObject_init [(0, 0, None); (5, 5, None)]) 1 1
                (Display_init 3 2) = Done s1 o1
    /\ draw_object o1 1 1 s1 = Done s1 o1
    /\ move_object o1 1 1 s1 = Done s1 o1.
Proof.
  apply (redraw_in_place (Display_init 3 2)
           (EngineObject_init [(0, 0, None); (5, 5, None)]) 1 1).
  reflexivity.
Defined.

(** X9. Two objects sharing cells are not kept apart: after drawing [oa]
    and then [ob], removing [oa] deactivates every cell the two footprints
    share, although [ob] still lists it; the cells of [ob] outside the
    footprint of [oa] stay active. *)
Theorem shared_cells_cleared (self : Display) (oa ob : EngineObject)
    (xa ya xb yb : Z) :
  grid_ok self = true ->
  exists s1 oa1 s2 ob1 s3 oa2,
    draw_object oa xa ya self = Done s1 oa1
    /\ draw_object ob xb yb s1 = Done s2 ob1
    /\ del_object oa1 s2 = Done s3 oa2
    /\ object_coordinates ob1
       = Some (footprint self xb yb (object_form ob))
    /\ (forall ref,
           ref ∈ footprint self xa ya (object_form oa) ->
           ref ∈ footprint self xb yb (object_form ob) ->
           exists cell,
             deref s3 ref = Some cell
             /\ is_active cell = false
             /\ symbol cell = " "%string)
    /\ (forall ref,
           ref ∈ footprint self xb yb (object_form ob) ->
           ref ∉ footprint self xa ya (object_form oa) ->
           exists cell, deref s3 ref = Some cell /\ is_active cell = true).
Proof.
  intros Hok. apply grid_ok_wf in Hok.
  destruct (draw_object_run self oa xa ya Hok)
    as (s1 & Hda & Hwf1 & Hsx1 & Hsy1 & _).
  destruct (draw_object_run s1 ob xb yb Hwf1)
    as (s2 & Hdb & Hwf2 & Hsx2 & Hsy2 & _).
  rewrite (footprint_sizes self s1) in Hdb by assumption.
  set (ra := footprint self xa ya (object_form oa)) in *.
  set (rb := footprint self xb yb (object_form ob)) in *.
  assert (Hra : refs_ok s2 ra = true).
  { unfold ra. rewrite <- (footprint_sizes self s2) by congruence.
    now apply footprint_ok. }
  destruct (del_object_run s2 (mkEngineObject (object_form oa) (Some ra))
              ra Hwf2 eq_refl Hra)
    as (s3 & Hdel & _ & _ & _ & Hin & Hout).
  eexists s1, _, s2, _, s3, _.
  split; [exact Hda |]. split; [exact Hdb |]. split; [exact Hdel |].
  split; [reflexivity |]. split.
  - intros ref Ha _. rewrite (Hin ref Ha).
    destruct (proj1 (refs_ok_spec _ _) Hra ref Ha) as [cell ->].
    exists (Cell_deactivate cell). auto.
  - intros ref Hb Ha. rewrite (Hout ref Ha).
    apply (draw_object_active _ _ _ _ _ _ Hwf1 Hdb).
    now rewrite (footprint_sizes self s1) by assumption.
Qed.

Lemma shared_cells_cleared_witness :
  exists s1 oa1 s2 ob1 s3 oa2,
    draw_object (EngineObject_init [(0, 0, None); (1, 0, None)]) 0 0
                (Display_init 3 2) = Done s1 oa1
    /\ draw_object (EngineObject_init [(0, 0, Some "B"%string);
                                       (1, 0, Some "B"%string)]) 1 0 s1
       = Done s2 ob1
    /\ del_object oa1 s2 = Done s3 oa2
    /\ object_coordinates ob1 = Some [(0%nat, 1%nat); (0%nat, 2%nat)]
    /\ (exists cell,
           deref s3 (0%nat, 1%nat) = Some cell
           /\ is_active cell = false
           /\ symbol cell = " "%string)
    /\ (exists cell,
           deref s3 (0%nat, 2%nat) = Some cell /\ is_active cell = true).
Proof.
  destruct (shared_cells_cleared (Display_init 3 2)
              (EngineObject_init [(0, 0, None); (1, 0, None)])
              (EngineObject_init [(0, 0, Some "B"%string);
                                  (1, 0, Some "B"%string)])
              0 0 1 0 eq_refl)
    as (s1 & oa1 & s2 & ob1 & s3 & oa2 & Hda & Hdb & Hdel & Hob & Hsh & Hb).
  exists s1, oa1, s2, ob1, s3, oa2.
  split; [exact Hda |]. split; [exact Hdb |]. split; [exact Hdel |].
  split; [exact Hob |]. split.
  - apply Hsh; vm_compute.
    + apply elem_of_cons. right. apply elem_of_cons. now left.
    + apply elem_of_cons. now left.
  - apply Hb; vm_compute.
    + apply elem_of_cons. right. apply elem_of_cons. now left.
    + intros H. apply elem_of_cons in H as [H | H]; [discriminate |].
      apply elem_of_cons in H as [H | H]; [discriminate | inversion H].
Defined.

(** X10. On a freshly constructed display, after [draw_object]
    [check_cell_condition] answers [True] exactly at the in-bounds
    coordinates some offset of the form lands on, and [False] everywhere
    else, out of bounds included. *)
Theorem query_after_draw (w h : Z) (o : EngineObject) (x y qx qy : Z) :
  exists s1 o1,
    draw_object o x y (Display_init w h) = Done s1 o1
    /\ check_cell_condition qx qy s1
       = Done s1 (_check_coordinates (Display_init w h) qx qy
                  && existsb (hits x y qx qy) (object_form o)).
Proof.
  pose proof (Display_init_wf w h) as Hwf.
  destruct (draw_object_run _ o x y Hwf)
    as (s1 & Hdraw & Hwf1 & Hsx & Hsy & Hcells).
  eexists s1, _. split; [exact Hdraw |].
  destruct (_check_coordinates (Display_init w h) qx qy) eqn:Hin.
  - pose proof Hin as Hin1.
    rewrite <- (check_coordinates_sizes _ s1) in Hin1 by assumption.
    specialize (Hcells qx qy Hin). unfold painted in Hcells.
    destruct (last (List.filter (hits x y qx qy) (object_form o)))
      as [c|] eqn:Hlast.
    + rewrite (check_cell_condition_in _ _ _ _ Hwf1 Hin1 Hcells).
      destruct (existsb (hits x y qx qy) (object_form o)) eqn:E;
        [reflexivity |].
      apply last_filter_None in E. congruence.
    + rewrite (Display_init_cell_at w h qx qy Hin) in Hcells.
      rewrite (check_cell_condition_in _ _ _ _ Hwf1 Hin1 Hcells).
      apply last_filter_None in Hlast. now rewrite Hlast.
  - rewrite check_cell_condition_out; [reflexivity |].
    now rewrite (check_coordinates_sizes (Display_init w h) s1) by assumption.
Qed.

(** ** Properties of the cells that the methods keep *)

Section GridAll.
Variable p : Cell -> bool.

Lemma grid_all_update (f : Cell -> Cell) (ref : CellRef) (self : Display) :
  (forall cell, p (f cell) = true) ->
  grid_all p self = true -> grid_all p (update_cell f ref self) = true.
Proof.
  intros Hf. unfold grid_all, update_cell. cbn [display].
  apply forallb_alter. intros row. apply forallb_alter. auto.
Qed.

Lemma grid_all_init (w h : Z) :
  (forall x y, p (Cell_init x y EMPTY_CELL_SYMBOL) = true) ->
  grid_all p (Display_init w h) = true.
Proof.
  intros Hp. unfold grid_all, Display_init, _display_init. cbn [display].
  apply forallb_forall. intros row Hrow.
  apply list_elem_of_In, list_elem_of_fmap in Hrow as (r & -> & _).
  apply forallb_forall. intros cell Hcell.
  apply list_elem_of_In, list_elem_of_fmap in Hcell as (c & -> & _).
  apply Hp.
Qed.

Lemma grid_all_cells (self : Display) (ref : CellRef) (cell : Cell) :
  grid_all p self = true -> deref self ref = Some cell -> p cell = true.
Proof.
  unfold grid_all, deref. intros Hall Hd.
  destruct (display self !! ref.1) as [row|] eqn:Hrow; [| discriminate].
  cbn in Hd. rewrite forallb_forall in Hall.
  specialize (Hall row). rewrite forallb_forall in Hall.
  apply Hall; apply list_elem_of_In; eapply list_elem_of_lookup_2; eauto.
Qed.

Lemma del_loop_all (refs : list CellRef) :
  (forall cell, p (Cell_deactivate cell) = true) ->
  forall self,
    wf self -> grid_all p self = true ->
    grid_all p (state_of (del_loop refs self)) = true.
Proof.
  intros Hp. induction refs as [|ref refs IH]; intros self Hwf Hall;
    [exact Hall |].
  destruct (deref self ref) as [cell|] eqn:Hd.
  - rewrite (del_loop_cons _ _ _ _ Hwf Hd). apply IH.
    + apply update_cell_wf; [apply Cell_deactivate_keeps_position | exact Hwf].
    + now apply grid_all_update.
  - cbn [del_loop]. unfold bind, get. now rewrite Hd.
Qed.

Lemma del_object_all (o : EngineObject) (self : Display) :
  (forall cell, p (Cell_deactivate cell) = true) ->
  wf self -> grid_all p self = true ->
  grid_all p (state_of (del_object o self)) = true.
Proof.
  intros Hp Hwf Hall. unfold del_object.
  destruct (object_coordinates o) as [refs|]; [| exact Hall].
  pose proof (del_loop_all refs Hp self Hwf Hall) as H. unfold bind.
  now destruct (del_loop refs self).
Qed.

Lemma draw_loop_all (sx sy : Z) (form : list offset) :
  (forall c cell, In c form ->
                  p (Cell_activate (Some (glyph c.2)) cell) = true) ->
  forall acc self,
    wf self -> grid_all p self = true ->
    grid_all p (state_of (draw_loop sx sy form acc self)) = true.
Proof.
  induction form as [|c form IH]; intros Hp acc self Hwf Hall; [exact Hall |].
  assert (Hp' : forall c' cell, In c' form ->
                  p (Cell_activate (Some (glyph c'.2)) cell) = true)
    by (intros c' cell Hc'; apply Hp; now right).
  destruct (lands self sx sy c) eqn:Hland.
  - rewrite (draw_loop_cons_in _ _ _ _ _ _ Hwf Hland). apply (IH Hp').
    + apply update_cell_wf; [apply Cell_activate_keeps_position | exact Hwf].
    + apply grid_all_update; [| exact Hall].
      intros cell. apply Hp. now left.
  - rewrite (draw_loop_cons_out _ _ _ _ _ _ Hland). now apply (IH Hp').
Qed.

Lemma draw_object_all (o : EngineObject) (x y : Z) (self : Display) :
  (forall c cell, In c (object_form o) ->
                  p (Cell_activate (Some (glyph c.2)) cell) = true) ->
  wf self -> grid_all p self = true ->
  grid_all p (state_of (draw_object o x y self)) = true.
Proof.
  intros Hp Hwf Hall.
  pose proof (draw_loop_all x y (object_form o) Hp [] self Hwf Hall) as H.
  unfold draw_object, bind.
  now destruct (draw_loop x y (object_form o) [] self).
Qed.

Lemma move_object_all (o : EngineObject) (x y : Z) (self : Display) :
  (forall cell, p (Cell_deactivate cell) = true) ->
  (forall c cell, In c (object_form o) ->
                  p (Cell_activate (Some (glyph c.2)) cell) = true) ->
  wf self -> grid_all p self = true ->
  grid_all p (state_of (move_object o x y self)) = true.
Proof.
  intros Hd Hp Hwf Hall.
  pose proof (del_object_all o self Hd Hwf Hall) as H.
  pose proof (del_object_wf o self Hwf) as Hwf1.
  assert (Hform : forall s1 o1, del_object o self = Done s1 o1 ->
                                object_form o1 = object_form o).
  { intros s1 o1. unfold del_object.
    destruct (object_coordinates o) as [refs|]; [| discriminate].
    unfold bind. destruct (del_loop refs self); [| discriminate].
    now intros [= _ <-]. }
  unfold move_object, bind.
  destruct (del_object o self) as [s1 o1 | s1 e]; [| exact H].
  apply draw_object_all; [| exact Hwf1 | exact H].
  now rewrite (Hform s1 o1 eq_refl).
Qed.
End GridAll.

Lemma no_space_symbol_spec (form : list offset) :
  no_space_symbol form = true ->
  forall c cell, In c form ->
                 cell_inv (Cell_activate (Some (glyph c.2)) cell) = true.
Proof.
  unfold no_space_symbol. rewrite forallb_forall. intros H c cell Hc.
  specialize (H c Hc). unfold cell_inv, Cell_activate. cbn.
  unfold EMPTY_CELL_SYMBOL in H. now rewrite H.
Qed.

(** X11. The object methods keep [is_active == (symbol != " ")] on every
    cell of the grid: [del_object] always, [draw_object] and [move_object]
    whenever no offset of the form carries the symbol [" "]; this holds
    whether the call returns or raises. *)
Theorem cell_inv_object_methods (self : Display) (o : EngineObject)
    (x y : Z) :
  grid_ok self = true ->
  grid_inv self = true ->
  grid_inv (state_of (del_object o self)) = true
  /\ (no_space_symbol (object_form o) = true ->
      grid_inv (state_of (draw_object o x y self)) = true
      /\ grid_inv (state_of (move_object o x y self)) = true).
Proof.
  intros Hok Hinv. apply grid_ok_wf in Hok.
  assert (Hd : forall cell, cell_inv (Cell_deactivate cell) = true)
    by reflexivity.
  split; [now apply (del_object_all cell_inv) |].
  intros Hform. pose proof (no_space_symbol_spec _ Hform) as Hp.
  split.
  - now apply (draw_object_all cell_inv).
  - now apply (move_object_all cell_inv).
Qed.

Lemma cell_inv_object_methods_witness :
  let o := mkEngineObject [(0, 0, None); (1, 0, Some "B"%string)]
                          (Some [(0%nat, 0%nat)]) in
  grid_inv (state_of (del_object o (Display_init 3 2))) = true
  /\ grid_inv (state_of (draw_object o 1 1 (Display_init 3 2))) = true
  /\ grid_inv (state_of (move_object o 1 1 (Display_init 3 2))) = true.
Proof.
  intros o.
  destruct (cell_inv_object_methods (Display_init 3 2) o 1 1
              eq_refl eq_refl) as [Hdel Hrest].
  split; [exact Hdel |]. apply Hrest. reflexivity.
Defined.

Lemma one_char_form_spec (form : list offset) :
  one_char_form form = true ->
  forall c cell, In c form ->
                 single_char (Cell_activate (Some (glyph c.2)) cell) = true.
Proof.
  unfold one_char_form. rewrite forallb_forall. intros H c cell Hc.
  exact (H c Hc).
Qed.

Lemma single_char_frame (self : Display) (out : console) :
  wf self -> grid_all single_char self = true ->
  exists text,
    render self out = out ++ [cursor_home; text]
    /\ is_frame (Z.to_nat (size_x self)) (Z.to_nat (size_y self)) text.
Proof.
  intros Hwf Hall. eexists. split; [apply render_eq |].
  exists (join_symbols <$> display self).
  split; [rewrite length_fmap; apply (wf_height _ Hwf) |].
  split; [| reflexivity].
  apply Forall_fmap, Forall_forall. intros row Hrow. cbn.
  apply list_elem_of_lookup in Hrow as [r Hr].
  assert (Hcells : forall cell, cell ∈ row ->
                     String.length (symbol cell) = 1%nat
                     /\ has_line_break (symbol cell) = false).
  { intros cell Hcell. apply list_elem_of_lookup in Hcell as [c Hc].
    assert (Hd : deref self (r, c) = Some cell)
      by (unfold deref; cbn [fst snd]; now rewrite Hr).
    pose proof (grid_all_cells single_char _ _ _ Hall Hd) as H1.
    unfold single_char in H1. apply andb_true_iff in H1 as [Hlen Hbr].
    apply Nat.eqb_eq in Hlen. apply negb_true_iff in Hbr. now split. }
  split.
  - rewrite join_symbols_length by (intros cell Hc; now apply Hcells).
    apply (wf_width _ Hwf r row Hr).
  - apply join_symbols_no_line_break. intros cell Hc. now apply Hcells.
Qed.

(** X12. Frames stay rectangular as long as every symbol is one character
    other than a line break: starting from a freshly constructed display,
    after drawing an object whose offsets all carry such symbols ([None]
    included), and after moving it or removing it again, [render] prints
    the cursor-home sequence and then a frame of exactly [size_y] lines of
    exactly [size_x] characters, none of them a line break. *)
Theorem rectangular_frames (w h : Z) (o : EngineObject) (x y x' y' : Z)
    (out : console) :
  one_char_form (object_form o) = true ->
  exists s1 o1 s2 o2 s3 o3 t0 t1 t2 t3,
    draw_object o x y (Display_init w h) = Done s1 o1
    /\ move_object o1 x' y' s1 = Done s2 o2
    /\ del_object o2 s2 = Done s3 o3
    /\ render (Display_init w h) out = out ++ [cursor_home; t0]
    /\ render s1 out = out ++ [cursor_home; t1]
    /\ render s2 out = out ++ [cursor_home; t2]
    /\ render s3 out = out ++ [cursor_home; t3]
    /\ Forall (is_frame (Z.to_nat w) (Z.to_nat h)) [t0; t1; t2; t3].
Proof.
  intros Hform. pose proof (one_char_form_spec _ Hform) as Hp.
  assert (Hd : forall cell, single_char (Cell_deactivate cell) = true)
    by reflexivity.
  set (s0 := Display_init w h).
  assert (Hwf0 : wf s0) by apply Display_init_wf.
  assert (Hall0 : grid_all single_char s0 = true)
    by (apply grid_all_init; reflexivity).
  destruct (draw_object_run s0 o x y Hwf0)
    as (s1 & Hdraw & Hwf1 & Hsx1 & Hsy1 & _).
  pose proof (draw_object_all single_char o x y s0 Hp Hwf0 Hall0) as Hall1.
  rewrite Hdraw in Hall1. cbn [state_of] in Hall1.
  set (refs1 := footprint s0 x y (object_form o)) in *.
  set (o1 := mkEngineObject (object_form o) (Some refs1)) in *.
  assert (Hrefs1 : refs_ok s1 refs1 = true).
  { unfold refs1. rewrite <- (footprint_sizes s0 s1) by assumption.
    now apply footprint_ok. }
  destruct (del_object_run s1 o1 refs1 Hwf1 eq_refl Hrefs1)
    as (s1' & Hdel1 & Hwf1' & Hsx1' & Hsy1' & _).
  destruct (draw_object_run s1' (mkEngineObject (object_form o) None)
              x' y' Hwf1')
    as (s2 & Hdraw2 & Hwf2 & Hsx2 & Hsy2 & _).
  assert (Hmove : move_object o1 x' y' s1
                  = Done s2 (mkEngineObject (object_form o)
                               (Some (footprint s1' x' y' (object_form o))))).
  { unfold move_object, bind. now rewrite Hdel1. }
  pose proof (move_object_all single_char o1 x' y' s1 Hd Hp Hwf1 Hall1)
    as Hall2.
  rewrite Hmove in Hall2. cbn [state_of] in Hall2.
  set (refs2 := footprint s1' x' y' (object_form o)) in *.
  set (o2 := mkEngineObject (object_form o) (Some refs2)) in *.
  assert (Hrefs2 : refs_ok s2 refs2 = true).
  { unfold refs2. rewrite <- (footprint_sizes s1' s2) by assumption.
    now apply footprint_ok. }
  destruct (del_object_run s2 o2 refs2 Hwf2 eq_refl Hrefs2)
    as (s3 & Hdel3 & Hwf3 & Hsx3 & Hsy3 & _).
  pose proof (del_object_all single_char o2 s2 Hd Hwf2 Hall2) as Hall3.
  rewrite Hdel3 in Hall3. cbn [state_of] in Hall3.
  destruct (single_char_frame s0 out Hwf0 Hall0) as (t0 & Hr0 & Hf0).
  destruct (single_char_frame s1 out Hwf1 Hall1) as (t1 & Hr1 & Hf1).
  destruct (single_char_frame s2 out Hwf2 Hall2) as (t2 & Hr2 & Hf2).
  destruct (single_char_frame s3 out Hwf3 Hall3) as (t3 & Hr3 & Hf3).
  assert (Ew1 : size_x s1 = w) by exact Hsx1.
  assert (Eh1 : size_y s1 = h) by exact Hsy1.
  assert (Ew2 : size_x s2 = w) by congruence.
  assert (Eh2 : size_y s2 = h) by congruence.
  assert (Ew3 : size_x s3 = w) by congruence.
  assert (Eh3 : size_y s3 = h) by congruence.
  rewrite Ew1, Eh1 in Hf1. rewrite Ew2, Eh2 in Hf2. rewrite Ew3, Eh3 in Hf3.
  exists s1, o1, s2, o2, s3. eexists. exists t0, t1, t2, t3.
  split; [exact Hdraw |]. split; [exact Hmove |]. split; [exact Hdel3 |].
  split; [exact Hr0 |]. split; [exact Hr1 |]. split; [exact Hr2 |].
  split; [exact Hr3 |].
  repeat constructor; assumption.
Qed.

Lemma rectangular_frames_witness :
  exists s1 o1 s2 o2 s3 o3 t0 t1 t2 t3,
    draw_object (EngineObject_init [(0, 0, None); (1, 0, Some "B"%string)])
                1 0 (Display_init 3 2) = Done s1 o1
    /\ move_object o1 0 1 s1 = Done s2 o2
    /\ del_object o2 s2 = Done s3 o3
    /\ render (Display_init 3 2) [] = [] ++ [cursor_home; t0]
    /\ render s1 [] = [] ++ [cursor_home; t1]
    /\ render s2 [] = [] ++ [cursor_home; t2]
    /\ render s3 [] = [] ++ [cursor_home; t3]
    /\ Forall (is_frame (Z.to_nat 3) (Z.to_nat 2)) [t0; t1; t2; t3].
Proof.
  apply (rectangular_frames 3 2
           (EngineObject_init [(0, 0, None); (1, 0, Some "B"%string)])
           1 0 0 1 []).
  reflexivity.
Defined.

(** X13. A freshly constructed display renders as [size_y] lines of
    [size_x] spaces (no line at all when [size_y] is not positive), and so
    does the display left by drawing any object on it and removing it. *)
Theorem render_blank (w h : Z) (o : EngineObject) (x y : Z)
    (out : console) :
  render (Display_init w h) out
  = out ++ [cursor_home;
            frame_text (replicate (Z.to_nat h) (spaces (Z.to_nat w)))]
  /\ exists s1 o1 s2 o2,
       draw_object o x y (Display_init w h) = Done s1 o1
       /\ del_object o1 s1 = Done s2 o2
       /\ render s2 out
          = out ++ [cursor_home;
                    frame_text (replicate (Z.to_nat h) (spaces (Z.to_nat w)))].
Proof.
  assert (Hblank : render (Display_init w h) out
                   = out ++ [cursor_home;
                             frame_text (replicate (Z.to_nat h)
                                                   (spaces (Z.to_nat w)))]).
  { rewrite render_eq. do 4 f_equal.
    unfold Display_init, _display_init. cbn [display].
    rewrite blank_rows. unfold range. now rewrite length_seqZ. }
  split; [exact Hblank |].
  pose proof (Display_init_wf w h) as Hwf.
  destruct (draw_object_run _ o x y Hwf)
    as (s1 & Hdraw & Hwf1 & Hsx & Hsy & _).
  set (refs := footprint (Display_init w h) x y (object_form o)) in *.
  assert (Hrefs : refs_ok s1 refs = true).
  { unfold refs. rewrite <- (footprint_sizes _ s1) by assumption.
    now apply footprint_ok. }
  destruct (del_object_run s1 (mkEngineObject (object_form o) (Some refs))
              refs Hwf1 eq_refl Hrefs)
    as (s2 & Hdel & Hwf2 & Hsx2 & Hsy2 & Hin & Hout).
  eexists s1, _, s2, _. split; [exact Hdraw |]. split; [exact Hdel |].
  rewrite <- Hblank. f_equal.
  apply display_ext; [exact Hwf2 | exact Hwf | congruence | congruence |].
  intros ref. destruct (decide (ref ∈ refs)) as [Hmem | Hmem].
  - rewrite (Hin ref Hmem).
    destruct (proj1 (refs_ok_spec _ _) Hrefs ref Hmem) as [c1 Hc1].
    assert (Hok0 : refs_ok (Display_init w h) refs = true)
      by now apply footprint_ok.
    destruct (proj1 (refs_ok_spec _ _) Hok0 ref Hmem) as [c0 Hc0].
    rewrite Hc1, Hc0. cbn. f_equal. destruct ref as [r c].
    destruct (wf_cell _ Hwf1 _ _ _ Hc1) as [Hx1 Hy1].
    apply Display_init_cell in Hc0. subst c0.
    unfold Cell_deactivate. now rewrite Hx1, Hy1.
  - rewrite (Hout ref Hmem).
    apply (draw_object_frame _ _ _ _ _ _ Hwf Hdraw ref Hmem).
Qed.

(** ** The paced loop *)

Lemma paced_gen_mon (f : float) : monotone2 (paced_gen f).
Proof.
  intros l t r r' H LE. unfold paced_gen in *.
  destruct H as (k1 & Hk1 & H). exists k1. split; [exact Hk1 |].
  intros cur. destruct (H cur) as (t2 & Hif & k3 & Hk3 & Hrest).
  exists t2. split; [exact Hif |]. exists k3. split; [exact Hk3 |].
  intros l'. destruct (Hrest l') as (t' & Ht' & Hr).
  exists t'. auto.
Qed.

#[local] Hint Resolve paced_gen_mon : paco.

Lemma frame_tail (r : float) (g : float -> itree engineE unit) :
  ITree.bind
    (ITree.bind call_update
       (fun _ => ITree.bind call_render (fun _ => Ret r)))
    (fun r0 => ITree.bind (Ret (inl r0))
                 (fun lr : float + unit =>
                    match lr with
                    | inl l => Tau (g l)
                    | inr r1 => Ret r1
                    end))
  ≅ Vis (inl1 Update) (fun _ => Vis (inl1 Render) (fun _ => Tau (g r))).
Proof.
  unfold call_update, call_render.
  rewrite bind_bind, bind_trigger.
  apply eqit_Vis. intros [].
  rewrite bind_bind, bind_trigger.
  apply eqit_Vis. intros [].
  rewrite !bind_ret_l. reflexivity.
Qed.

Lemma paced_loop (f : float) :
  forall last_time,
    paced f last_time (ITree.iter (paced_step (Some f)) last_time).
Proof.
  pcofix CIH. intros last_time. pfold. unfold paced_gen.
  eexists. split.
  { rewrite unfold_iter. unfold paced_step at 1, paced_iteration, time_time.
    rewrite !bind_bind, bind_trigger. reflexivity. }
  intros cur. cbn beta.
  destruct (PrimFloat.ltb (PrimFloat.sub cur last_time) f) eqn:E.
  - eexists. split.
    { unfold time_sleep. rewrite bind_trigger, bind_vis. reflexivity. }
    eexists. split.
    { cbn beta. rewrite bind_trigger. reflexivity. }
    intros l'. eexists. split.
    { cbn beta. apply (frame_tail l' (ITree.iter (paced_step (Some f)))). }
    right. apply CIH.
  - eexists. split.
    { rewrite bind_ret_l. reflexivity. }
    eexists. split.
    { rewrite bind_trigger. reflexivity. }
    intros l'. eexists. split.
    { cbn beta. apply (frame_tail l' (ITree.iter (paced_step (Some f)))). }
    right. apply CIH.
Qed.

Lemma paced_loop_never_returns (fps : option float)
    (k : unit -> itree engineE unit) :
  forall last_time,
    ITree.bind (ITree.iter (paced_step fps) last_time) k
    ≅ ITree.iter (paced_step fps) last_time.
Proof.
  ginit. gcofix CIH. intros last_time.
  rewrite unfold_iter. unfold paced_step at 1 3. rewrite !bind_bind.
  guclo eqit_clo_bind. econstructor; [reflexivity |].
  intros l1 l2 <-. rewrite !bind_ret_l, bind_tau.
  gstep. constructor. gbase. apply CIH.
Qed.

(** X14. [run] with an argument Python takes for true is
    [_run_with_fps_limit] and nothing more: that loop does not return, so
    the call of [_run_without_fps_limit] written after it is never
    reached. *)
Theorem run_truthy_is_paced_loop (fps : option float) :
  truthy fps = true -> run fps ≅ _run_with_fps_limit fps.
Proof.
  intros Hfps. unfold run. rewrite Hfps. unfold _run_with_fps_limit.
  rewrite bind_bind.
  eapply eqit_bind; [reflexivity |]. intros t0.
  apply (paced_loop_never_returns fps).
Qed.

Lemma run_truthy_is_paced_loop_witness :
  run (Some 0.5%float) ≅ _run_with_fps_limit (Some 0.5%float).
Proof. apply (run_truthy_is_paced_loop (Some 0.5%float)). reflexivity. Defined.

(** X15. [_run_with_fps_limit(fps)] with a number first reads the clock and
    then iterates for ever: each iteration reads the clock, sleeps for
    [fps - elapsed] exactly when [elapsed < fps], where [elapsed] is the
    time since the value kept from the iteration before, and does not sleep
    otherwise; it reads the clock again and keeps that value, and then
    calls [update] and [render], in this order. *)
Theorem run_with_fps_limit_paced (f : float) :
  exists k,
    _run_with_fps_limit (Some f) ≅ Vis (inr1 Time) k
    /\ forall last_time, paced f last_time (k last_time).
Proof.
  exists (ITree.iter (paced_step (Some f))). split.
  - unfold _run_with_fps_limit, time_time. rewrite bind_trigger. reflexivity.
  - apply paced_loop.
Qed.

(** ** Independent objects *)

Lemma in_footprint (self : Display) (sx sy : Z) (form : list offset)
    (x y : Z) (c : offset) :
  _check_coordinates self x y = true ->
  last (List.filter (hits sx sy x y) form) = Some c ->
  ref_of x y ∈ footprint self sx sy form.
Proof.
  intros Hin Hlast. apply last_Some_elem_of in Hlast.
  apply list_elem_of_In, filter_In in Hlast as [Hc Hhit].
  unfold hits in Hhit. apply andb_true_iff in Hhit as [Hx Hy].
  apply Z.eqb_eq in Hx, Hy.
  apply elem_of_footprint. exists c.
  split; [now apply list_elem_of_In |].
  split; [unfold lands; now rewrite Hx, Hy | now rewrite Hx, Hy].
Qed.

(** X16. Objects whose footprints share no cell can be drawn in either
    order: both orders return normally and end in the same display, each
    object with the same list of cells. *)
Theorem draw_disjoint_commute (self : Display) (oa ob : EngineObject)
    (xa ya xb yb : Z) :
  grid_ok self = true ->
  (forall ref,
      ref ∈ footprint self xa ya (object_form oa) ->
      ref ∉ footprint self xb yb (object_form ob)) ->
  exists s1 t1 s2 oa' ob',
    draw_object oa xa ya self = Done s1 oa'
    /\ draw_object ob xb yb s1 = Done s2 ob'
    /\ draw_object ob xb yb self = Done t1 ob'
    /\ draw_object oa xa ya t1 = Done s2 oa'.
Proof.
  intros Hok Hdisj. apply grid_ok_wf in Hok.
  destruct (draw_object_run self oa xa ya Hok)
    as (s1 & Hda & Hwfs1 & Hsx1 & Hsy1 & Hca).
  destruct (draw_object_run s1 ob xb yb Hwfs1)
    as (s2 & Hdab & Hwfs2 & Hsx2 & Hsy2 & Hcab).
  destruct (draw_object_run self ob xb yb Hok)
    as (t1 & Hdb & Hwft1 & Htx1 & Hty1 & Hcb).
  destruct (draw_object_run t1 oa xa ya Hwft1)
    as (t2 & Hdba & Hwft2 & Htx2 & Hty2 & Hcba).
  rewrite (footprint_sizes self s1) in Hdab by assumption.
  rewrite (footprint_sizes self t1) in Hdba by assumption.
  assert (Heq : t2 = s2).
  { apply display_ext_cells; [exact Hwft2 | exact Hwfs2 | congruence
                              | congruence |].
    intros x y Hin.
    assert (Hin0 : _check_coordinates self x y = true).
    { rewrite <- (check_coordinates_sizes self t1) by assumption.
      now rewrite <- (check_coordinates_sizes t1 t2) by assumption. }
    assert (Hins1 : _check_coordinates s1 x y = true)
      by now rewrite (check_coordinates_sizes self s1) by assumption.
    assert (Hint1 : _check_coordinates t1 x y = true)
      by now rewrite (check_coordinates_sizes self t1) by assumption.
    rewrite (Hcba x y Hint1), (Hcb x y Hin0).
    rewrite (Hcab x y Hins1), (Hca x y Hin0).
    unfold painted.
    destruct (last (List.filter (hits xa ya x y) (object_form oa)))
      as [ca|] eqn:Ha;
      destruct (last (List.filter (hits xb yb x y) (object_form ob)))
        as [cb|] eqn:Hb; try reflexivity.
    exfalso. apply (Hdisj (ref_of x y)).
    - exact (in_footprint self _ _ _ _ _ _ Hin0 Ha).
    - exact (in_footprint self _ _ _ _ _ _ Hin0 Hb). }
  subst t2. eexists s1, t1, s2, _, _.
  split; [exact Hda |]. split; [exact Hdab |]. split; [exact Hdb |].
  exact Hdba.
Qed.

Lemma draw_disjoint_commute_witness :
  exists s1 t1 s2 oa' ob',
    draw_object (EngineObject_init [(0, 0, None)]) 0 0 (Display_init 3 2)
    = Done s1 oa'
    /\ draw_object (EngineObject_init [(0, 0, Some "B"%string)]) 2 1 s1
       = Done s2 ob'
    /\ draw_object (EngineObject_init [(0, 0, Some "B"%string)]) 2 1
                   (Display_init 3 2) = Done t1 ob'
    /\ draw_object (EngineObject_init [(0, 0, None)]) 0 0 t1 = Done s2 oa'.
Proof.
  apply (draw_disjoint_commute (Display_init 3 2)
           (EngineObject_init [(0, 0, None)])
           (EngineObject_init [(0, 0, Some "B"%string)]) 0 0 2 1).
  - reflexivity.
  - intros ref Ha. vm_compute in Ha. vm_compute.
    apply elem_of_cons in Ha as [-> | Ha]; [| inversion Ha].
    intros Hb. apply elem_of_cons in Hb as [Hb | Hb];
      [discriminate | inversion Hb].
Defined.

(** ** The paced loop without a number *)

Lemma paced_step_None_unfold (last_time : float) :
  ITree.iter (paced_step None) last_time
  ≅ Vis (inl1 Update)
      (fun _ => Vis (inl1 Render)
                  (fun _ => Tau (ITree.iter (paced_step None) last_time))).
Proof.
  rewrite unfold_iter. unfold paced_step at 1, paced_iteration.
  rewrite bind_bind, bind_ret_l.
  apply (frame_tail last_time (ITree.iter (paced_step None))).
Qed.

Lemma run_without_fps_limit_unfold :
  _run_without_fps_limit
  ≅ Vis (inl1 Update)
      (fun _ => Vis (inl1 Render) (fun _ => Tau _run_without_fps_limit)).
Proof.
  unfold _run_without_fps_limit at 1. rewrite unfold_forever.
  unfold call_update, call_render. rewrite bind_bind, bind_trigger.
  apply eqit_Vis. intros []. rewrite bind_trigger.
  apply eqit_Vis. intros []. reflexivity.
Qed.

Lemma unlimited_iter :
  forall last_time,
    ITree.iter (paced_step None) last_time ≅ _run_without_fps_limit.
Proof.
  ginit. gcofix CIH. intros last_time.
  rewrite paced_step_None_unfold, run_without_fps_limit_unfold.
  gstep. constructor. intros []. cbn beta.
  gstep. constructor. intros []. cbn beta.
  gstep. constructor. gbase. apply CIH.
Qed.

(** X17. [_run_with_fps_limit(None)], as its docstring says, runs without
    limit: after the one reading of the clock that precedes the loop it is
    [_run_without_fps_limit], and never calls the clock or sleeps again. *)
Theorem run_with_fps_limit_None :
  _run_with_fps_limit None
  ≅ Vis (inr1 Time) (fun _ => _run_without_fps_limit)
  /\ unpaced _run_without_fps_limit.
Proof.
  split; [| apply run_without_fps_limit_unpaced].
  unfold _run_with_fps_limit, time_time. rewrite bind_trigger.
  apply eqit_Vis. intros t0. apply unlimited_iter.
Qed.
